(** * The vendored cassette record/replay engine of Steer-Clear-Backend-Web

    Shallow embedding of [vcr/cassette.py] (class [Cassette]) and of
    [vcr/filters.py], with the properties of the design document proved
    or refuted on the embedding.

    Conventions.
    - A Python method that mutates [self] is a function from the cassette
      to the new cassette (and its result, when it has one).
    - A Python exception is the [Raise] constructor of [result].
    - A value that Python tests for truth is [option]: [None] stands for
      a falsy value, [Some x] for the truthy value [x].
    - Collaborators that are imported but live outside these two files
      ([requests_match], [load_cassette], [save_cassette], the URL and
      JSON helpers of the standard library) are parameters. *)

From Stdlib Require Import String Ascii List Bool Arith Lia.
From Stdlib Require Import Strings.Byte.
From stdpp Require Import gmap strings list fin_maps.


(** ** Exceptions and results *)

Inductive result (E A : Type) : Type :=
| Ok (a : A)
| Raise (e : E).

Arguments Ok {E A} a.
Arguments Raise {E A} e.

Definition bind {E A B : Type} (r : result E A) (k : A -> result E B)
  : result E B :=
  match r with
  | Ok a => k a
  | Raise e => Raise e
  end.

(** ** collections.Counter over indices

    Reading a missing key of a [Counter] gives 0 and stores nothing;
    [counts[i] += 1] stores the read value plus one. *)

Definition counter_get (counts : gmap nat nat) (index : nat) : nat :=
  default 0 (counts !! index).

Definition counter_incr (counts : gmap nat nat) (index : nat)
  : gmap nat nat :=
  <[index := counter_get counts index + 1]> counts.

(** [enumerate(l)] of Python, from a start index. *)
Fixpoint enumerate_from {A : Type} (start : nat) (l : list A)
  : list (nat * A) :=
  match l with
  | [] => []
  | x :: l' => (start, x) :: enumerate_from (S start) l'
  end.

Definition enumerate {A : Type} (l : list A) : list (nat * A) :=
  enumerate_from 0 l.

(** ** class Cassette *)

Module Cassette.

Section WithTypes.

(** Requests, responses and the [match_on] configuration are values of
    the caller; [requests_match] is [vcr.matchers.requests_match].  Its
    first argument is whatever the request filter returned, so it may
    be a falsy value. *)
Context {Request Response MatchOn : Type}.
Variable requests_match : option Request -> Request -> MatchOn -> bool.

(** The exceptions that leave the methods below. *)
Inductive exn : Type :=
| UnhandledHTTPRequestError (path : string) (request : Request)
| OtherError (what : string).

(** The attributes set by [__init__] that the methods below read. *)
Record t : Type := mk {
  _path : string;
  _match_on : MatchOn;
  _before_record_request : Request -> option Request;
  _before_record_response : Response -> Response;
  record_mode : string;
  data : list (Request * Response);
  play_counts : gmap nat nat;
  dirty : bool;
  rewound : bool
}.

Definition set_data (c : t) (d : list (Request * Response)) : t :=
  mk (_path c) (_match_on c) (_before_record_request c)
     (_before_record_response c) (record_mode c)
     d (play_counts c) (dirty c) (rewound c).

Definition set_play_counts (c : t) (pc : gmap nat nat) : t :=
  mk (_path c) (_match_on c) (_before_record_request c)
     (_before_record_response c) (record_mode c)
     (data c) pc (dirty c) (rewound c).

Definition set_dirty (c : t) (b : bool) : t :=
  mk (_path c) (_match_on c) (_before_record_request c)
     (_before_record_response c) (record_mode c)
     (data c) (play_counts c) b (rewound c).

Definition set_rewound (c : t) (b : bool) : t :=
  mk (_path c) (_match_on c) (_before_record_request c)
     (_before_record_response c) (record_mode c)
     (data c) (play_counts c) (dirty c) b.

(** [__init__]: a keyword left at [None] gets the identity filter
    ([before_record_request or (lambda x: x)]). *)
Definition __init__ (path : string) (record_mode : string)
    (match_on : MatchOn)
    (before_record_request : option (Request -> option Request))
    (before_record_response : option (Response -> Response)) : t :=
  mk path match_on
     (default (fun x => Some x) before_record_request)
     (default (fun x => x) before_record_response)
     record_mode [] ∅ false false.

(** [write_protected]:
    [self.rewound and self.record_mode == 'once' or
     self.record_mode == 'none']. *)
Definition write_protected (c : t) : bool :=
  rewound c && String.eqb (record_mode c) "once"
  || String.eqb (record_mode c) "none".

(** [append]: the guard [if self._before_record_response:] tests a
    function object, which is truthy, so the response filter always
    runs. *)
Definition append (c : t) (request : Request) (response : Response) : t :=
  match _before_record_request c request with
  | None => c
  | Some request =>
      let response := _before_record_response c response in
      set_dirty (set_data c (data c ++ [(request, response)])) true
  end.

Definition filter_request (c : t) (request : Request) : option Request :=
  _before_record_request c request.

(** [_responses]: the generator, as the list of what it yields. *)
Definition _responses (c : t) (request : Request) : list (nat * Response) :=
  let request := _before_record_request c request in
  omap (fun '(index, (stored_request, response)) =>
          if requests_match request stored_request (_match_on c)
          then Some (index, response) else None)
       (enumerate (data c)).

(** The loop shared by [play_response] and [__contains__]: the first
    yielded pair whose play count is zero. *)
Fixpoint first_unplayed (counts : gmap nat nat)
    (yielded : list (nat * Response)) : option (nat * Response) :=
  match yielded with
  | [] => None
  | (index, response) :: rest =>
      if Nat.eqb (counter_get counts index) 0 then Some (index, response)
      else first_unplayed counts rest
  end.

Definition play_response (c : t) (request : Request)
  : t * result exn Response :=
  match first_unplayed (play_counts c) (_responses c request) with
  | Some (index, response) =>
      (set_play_counts c (counter_incr (play_counts c) index),
       Ok response)
  | None =>
      (c, Raise (UnhandledHTTPRequestError (_path c) request))
  end.

Definition responses_of (c : t) (request : Request)
  : result exn (list Response) :=
  match map snd (_responses c request) with
  | [] => Raise (UnhandledHTTPRequestError (_path c) request)
  | responses => Ok responses
  end.

Definition __contains__ (c : t) (request : Request) : bool :=
  match first_unplayed (play_counts c) (_responses c request) with
  | Some _ => true
  | None => false
  end.

(** [can_play_response_for]: the truth value of
    [request and request in self and self.record_mode != 'all' and
     self.rewound], where [request] is already the filtered one. *)
Definition can_play_response_for (c : t) (request : Request) : bool :=
  match _before_record_request c request with
  | None => false
  | Some request =>
      __contains__ c request
      && negb (String.eqb (record_mode c) "all")
      && rewound c
  end.

(** What [load_cassette(path, serializer)] does: it returns the two
    lists, or raises [IOError], or raises something else. *)
Inductive load_outcome : Type :=
| Loaded (requests : list Request) (responses : list Response)
| LoadIOError
| LoadFails (what : string).

(** [_load]: only [IOError] is swallowed. *)
Definition _load (load_cassette : string -> load_outcome) (c : t)
  : result exn t :=
  match load_cassette (_path c) with
  | Loaded requests responses =>
      let c :=
        fold_left (fun c '(request, response) => append c request response)
                  (combine requests responses) c in
      Ok (set_rewound (set_dirty c false) true)
  | LoadIOError => Ok c
  | LoadFails what => Raise (OtherError what)
  end.

(** [load]: the class method, the constructor, then [_load]. *)
Definition load (load_cassette : string -> load_outcome)
    (path : string) (record_mode : string) (match_on : MatchOn)
    (before_record_request : option (Request -> option Request))
    (before_record_response : option (Response -> Response))
  : result exn t :=
  _load load_cassette
    (__init__ path record_mode match_on
              before_record_request before_record_response).

(** [_save]: [save_ok] says whether [save_cassette] returned. *)
Definition _save (save_ok : bool) (c : t) (force : bool) : result exn t :=
  if force || dirty c then
    if save_ok then Ok (set_dirty c false)
    else Raise (OtherError "save_cassette")
  else Ok c.

(** A call on a cassette, with what the storage does during it. *)
Inductive op : Type :=
| OpAppend (request : Request) (response : Response)
| OpPlayResponse (request : Request)
| OpResponsesOf (request : Request)
| OpCanPlayResponseFor (request : Request)
| OpContains (request : Request)
| OpSave (force save_ok : bool)
| OpLoad (load_cassette : string -> load_outcome).

(** The cassette after a call; a call that raises leaves the cassette
    as it was when the exception left the method. *)
Definition step (c : t) (o : op) : t :=
  match o with
  | OpAppend request response => append c request response
  | OpPlayResponse request => fst (play_response c request)
  | OpResponsesOf _ => c
  | OpCanPlayResponseFor _ => c
  | OpContains _ => c
  | OpSave force save_ok =>
      match _save save_ok c force with Ok c' => c' | Raise _ => c end
  | OpLoad load_cassette =>
      match _load load_cassette c with Ok c' => c' | Raise _ => c end
  end.

Definition run (c : t) (ops : list op) : t := fold_left step ops c.

(** Index [i] holds an exchange that matches [wanted] and has not been
    played: what the loops of [play_response] and [__contains__] look
    for. *)
Definition unplayed_match (c : t) (wanted : option Request)
    (i : nat) : Prop :=
  exists stored response,
    data c !! i = Some (stored, response)
    /\ requests_match wanted stored (_match_on c) = true
    /\ counter_get (play_counts c) i = 0.

(** The condition the design document gives for [can_play_response_for]:
    the request, filtered once, matches an unplayed exchange; the mode is
    not "all"; the cassette is rewound. *)
Definition can_play_as_documented (c : t) (request : Request) : Prop :=
  (exists i, unplayed_match c (_before_record_request c request) i)
  /\ record_mode c <> "all"
  /\ rewound c = true.

(** The condition the design document gives for [write_protected]. *)
Definition write_protected_as_documented (c : t) : Prop :=
  (rewound c = true /\ record_mode c = "once") \/ record_mode c = "never".

Definition set_record_mode (c : t) (mode : string) : t :=
  mk (_path c) (_match_on c) (_before_record_request c)
     (_before_record_response c) mode
     (data c) (play_counts c) (dirty c) (rewound c).

End WithTypes.

End Cassette.

(** ** A small configuration to run the cassette on

    Requests are their URI, responses a status line, and the only
    matcher compares URIs. *)

Module Demo.

Definition uri_match (wanted : option string) (stored : string)
    (match_on : unit) : bool :=
  match wanted with
  | Some wanted_uri => String.eqb wanted_uri stored
  | None => false
  end.

(** A [before_record_request] hook that tags the URI it is given. *)
Definition tag_uri (request : string) : option string :=
  Some (String.append request "&seen=1").

Definition no_storage (path : string) : @Cassette.load_outcome string string :=
  Cassette.LoadIOError.

Definition one_exchange (path : string)
  : @Cassette.load_outcome string string :=
  Cassette.Loaded ["http://host/ride?id=1"] ["200 OK"].

(** [Cassette.load(path='rides.yaml', before_record_request=tag_uri)] on a
    stored exchange. *)
Definition tagged : @Cassette.t string string unit :=
  match Cassette.load one_exchange "rides.yaml" "once" tt
                      (Some tag_uri) None with
  | Ok c => c
  | Raise _ => Cassette.__init__ "rides.yaml" "once" tt (Some tag_uri) None
  end.

(** [Cassette('rides.yaml', record_mode='none')]. *)
Definition playback_only : @Cassette.t string string unit :=
  Cassette.__init__ "rides.yaml" "none" tt None None.

End Demo.

(** ** vcr/filters.py *)

#[global] Instance byte_eq_decision : EqDecision byte := Byte.byte_eq_dec.

Module Filters.

Abbreviation bytes := (list byte).

Definition amp : byte := x26.
Definition equals : byte := x3d.

(** [s.split(sep)] for a separator of one byte: never an empty list. *)
Fixpoint bytes_split (sep : byte) (s : bytes) : list bytes :=
  match s with
  | [] => [[]]
  | b :: s' =>
      if decide (b = sep) then [] :: bytes_split sep s'
      else match bytes_split sep s' with
           | piece :: pieces => (b :: piece) :: pieces
           | [] => [[b]]
           end
  end.

(** [s.partition(sep)]: head, separator and tail at the first [sep], or
    the whole of [s] and two empty strings when [sep] is absent. *)
Fixpoint bytes_partition (sep : byte) (s : bytes) : bytes * bytes * bytes :=
  match s with
  | [] => ([], [], [])
  | b :: s' =>
      if decide (b = sep) then ([], [sep], s')
      else let '(head, found, tail) := bytes_partition sep s' in
           (b :: head, found, tail)
  end.

(** [sep.join(pieces)]. *)
Fixpoint bytes_join (sep : bytes) (pieces : list bytes) : bytes :=
  match pieces with
  | [] => []
  | piece :: rest =>
      match rest with
      | [] => piece
      | _ :: _ => piece ++ sep ++ bytes_join sep rest
      end
  end.

(** [str.lower()] on the ASCII letters. *)
Definition ascii_lower (c : ascii) : ascii :=
  let n := nat_of_ascii c in
  if Nat.leb 65 n && Nat.leb n 90 then ascii_of_nat (n + 32) else c.

Fixpoint lower (s : string) : string :=
  match s with
  | EmptyString => EmptyString
  | String c s' => String (ascii_lower c) (lower s')
  end.

Inductive exn : Type :=
| KeyError (key : string)
| AttributeError
| ValueError
| UnicodeDecodeError.

(** Modelled from the spec: the [Request] class of [vcr/request.py],
    which the filters receive and which is not part of the sources at
    hand.  "Request has method, URI, headers (key-value), and body (byte
    sequence or structured form)".  The body is absent ([None]), a byte
    string, or a [BytesIO] stream; the headers are a dictionary. *)
Inductive body_t : Type :=
| NoBody
| Bytes (b : bytes)
| BytesIO (b : bytes).

Record Request : Type := mkRequest {
  method : string;
  uri : string;
  body : body_t;
  headers : gmap string string
}.

Definition set_headers (request : Request) (h : gmap string string)
  : Request :=
  mkRequest (method request) (uri request) (body request) h.

Definition set_uri (request : Request) (u : string) : Request :=
  mkRequest (method request) u (body request) (headers request).

Definition set_body (request : Request) (b : body_t) : Request :=
  mkRequest (method request) (uri request) b (headers request).

(** [d.pop(k)] without a default raises [KeyError] on a missing key. *)
Definition dict_pop (k : string) (d : gmap string string)
  : result exn (gmap string string) :=
  match d !! k with
  | Some _ => Ok (delete k d)
  | None => Raise (KeyError k)
  end.

(** [for k in keys: headers.pop(k)]. *)
Fixpoint pop_all (keys : list string) (d : gmap string string)
  : result exn (gmap string string) :=
  match keys with
  | [] => Ok d
  | k :: keys' => bind (dict_pop k d) (pop_all keys')
  end.

Definition remove_headers (request : Request)
    (headers_to_remove : list string) : result exn Request :=
  let headers := headers request in
  let headers_to_remove := lower <$> headers_to_remove in
  let keys :=
    filter (fun k => lower k ∈ headers_to_remove)
           (map_to_list headers).*1 in
  match keys with
  | [] => Ok request
  | _ :: _ =>
      bind (pop_all keys headers)
           (fun headers => Ok (set_headers request headers))
  end.

(** The six parts of [urlparse]. *)
Record ParseResult : Type := mkParseResult {
  scheme : string;
  netloc : string;
  path : string;
  params : string;
  query : string;
  fragment : string
}.

(** [uri_parts[4] = value]. *)
Definition set_query (parts : ParseResult) (value : string) : ParseResult :=
  mkParseResult (scheme parts) (netloc parts) (path parts) (params parts)
                value (fragment parts).

(** [OrderedDict] from keys to lists of values: insertion order of the
    keys is the order of the list. *)
Definition od_contains (k : bytes) (d : list (bytes * list bytes)) : bool :=
  bool_decide (k ∈ d.*1).

(** [d[k].append(v)] for a key that is present. *)
Fixpoint od_append (k v : bytes) (d : list (bytes * list bytes))
  : list (bytes * list bytes) :=
  match d with
  | [] => []
  | (k', vals) :: d' =>
      if decide (k' = k) then (k', vals ++ [v]) :: d'
      else (k', vals) :: od_append k v d'
  end.

(** [d[k] = vals]: a present key keeps its place, a new key goes last. *)
Fixpoint od_setitem (k : bytes) (vals : list bytes)
    (d : list (bytes * list bytes)) : list (bytes * list bytes) :=
  match d with
  | [] => [(k, vals)]
  | (k', vals') :: d' =>
      if decide (k' = k) then (k', vals) :: d'
      else (k', vals') :: od_setitem k vals d'
  end.

(** The pairs [(k, v)] in the order [d.items()] and the value lists
    give them. *)
Definition od_pairs (d : list (bytes * list bytes)) : list (bytes * bytes) :=
  flat_map (fun '(k, vals) => map (fun v => (k, v)) vals) d.

(** The body written back:
    [b'&'.join(b'='.join([k, v]) for k, vals in post_data.items()
               for v in vals)]. *)
Definition form_render (post_data : list (bytes * list bytes)) : bytes :=
  bytes_join [amp]
    (flat_map (fun '(k, vals) =>
                 map (fun v => bytes_join [equals] [k; v]) vals)
              post_data).

(** [[p.partition(b'=') for p in body.split(b'&')]]. *)
Definition form_params (b : bytes) : list (bytes * bytes * bytes) :=
  map (bytes_partition equals) (bytes_split amp b).

Section WithLibraries.

(** The collaborators from the standard library and from
    [vcr/request.py]:
    - [query_of uri] is the property [Request.query], the sorted list of
      the pairs that [parse_qsl] finds in the query string of [uri];
    - [urlparse], [urlencode], [urlunparse] are those of [urllib];
    - [json_loads b] is [json.loads(b.decode('utf-8'))] when that is a
      JSON object, and [None] when the call raises or the document is not
      an object (the next line, [json_data.keys()], then raises);
    - [json_dumps d] is [json.dumps(d).encode('utf-8')];
    - [utf8_decode k] is [k.decode('utf-8')], [None] when it raises. *)
Context {Json : Type}.
Variable query_of : string -> list (string * string).
Variable urlparse : string -> ParseResult.
Variable urlencode : list (string * string) -> string.
Variable urlunparse : ParseResult -> string.
Variable json_loads : bytes -> option (gmap string Json).
Variable json_dumps : gmap string Json -> bytes.
Variable utf8_decode : bytes -> option string.

(** [[(k, v) for (k, v) in query if k not in names]]. *)
Definition keep_query (names : list string) (q : list (string * string))
  : list (string * string) :=
  filter (fun kv => kv.1 ∉ names) q.

(** The URI that [remove_query_parameters] writes when it rewrites. *)
Definition rebuilt_uri (request : Request) (new_query : list (string * string))
  : string :=
  urlunparse (set_query (urlparse (uri request)) (urlencode new_query)).

Definition remove_query_parameters (request : Request)
    (query_parameters_to_remove : list string) : Request :=
  let query := query_of (uri request) in
  let new_query := keep_query query_parameters_to_remove query in
  if decide (length new_query <> length query) then
    set_uri request (rebuilt_uri request new_query)
  else request.

(** [for k in list(json_data.keys()): if k in names: del json_data[k]]. *)
Definition strip_keys (names : list string) (json_data : gmap string Json)
  : gmap string Json :=
  foldl (fun d k => if decide (k ∈ names) then delete k d else d)
        json_data (map_to_list json_data).*1.

(** One turn of the loop over the partitioned pieces of a form body. *)
Definition form_step (names : list string)
    (post_data : list (bytes * list bytes)) (p : bytes * bytes * bytes)
  : result exn (list (bytes * list bytes)) :=
  let '(k, sep, v) := p in
  if od_contains k post_data then Ok (od_append k v post_data)
  else if Nat.ltb 0 (length k) then
    match utf8_decode k with
    | None => Raise UnicodeDecodeError
    | Some name =>
        if bool_decide (name ∉ names)
        then Ok (od_setitem k [v] post_data)
        else Ok post_data
    end
  else Ok post_data.

Fixpoint form_loop (names : list string) (ps : list (bytes * bytes * bytes))
    (post_data : list (bytes * list bytes))
  : result exn (list (bytes * list bytes)) :=
  match ps with
  | [] => Ok post_data
  | p :: ps' => bind (form_step names post_data p) (form_loop names ps')
  end.

Definition remove_post_data_parameters (request : Request)
    (post_data_parameters_to_remove : list string) : result exn Request :=
  if String.eqb (method request) "POST" then
    match body request with
    | BytesIO _ => Ok request
    | NoBody => Raise AttributeError
    | Bytes b =>
        if bool_decide
             (headers request !! "Content-Type" = Some "application/json")
        then
          match json_loads b with
          | None => Raise ValueError
          | Some json_data =>
              let json_data :=
                strip_keys post_data_parameters_to_remove json_data in
              Ok (set_body request (Bytes (json_dumps json_data)))
          end
        else
          bind (form_loop post_data_parameters_to_remove (form_params b) [])
               (fun post_data =>
                  Ok (set_body request (Bytes (form_render post_data))))
    end
  else Ok request.

(** What survives in a form body: a pair whose key is not empty and
    whose decoded key is not listed. *)
Definition form_kept (names : list string) (kv : bytes * bytes) : bool :=
  negb (bool_decide (kv.1 = []))
  && match utf8_decode kv.1 with
     | Some name => bool_decide (name ∉ names)
     | None => false
     end.

(** The entries that the loop builds from a split body: distinct keys,
    none empty, none with a separator in it, each decoding to a name that
    is not listed, each with at least one value, no value with '&'. *)
Definition post_data_ok (names : list string)
    (d : list (bytes * list bytes)) : Prop :=
  NoDup d.*1
  /\ Forall (fun kvs : bytes * list bytes =>
               kvs.1 <> []
               /\ (equals ∉ kvs.1)
               /\ (amp ∉ kvs.1)
               /\ (exists name, utf8_decode kvs.1 = Some name /\ name ∉ names)
               /\ kvs.2 <> []
               /\ Forall (fun v => amp ∉ v) kvs.2) d.

End WithLibraries.

(** A piece of a body split at '&', partitioned at '=': no '&' in it, no
    '=' in its key. *)
Definition clean_param (p : bytes * bytes * bytes) : Prop :=
  (equals ∉ p.1.1) /\ (amp ∉ p.1.1) /\ (amp ∉ p.2).

(** Grouping of pairs by key: keys in the order of their first
    occurrence, the values of a key in their order. *)
Definition od_add (d : list (bytes * list bytes)) (kv : bytes * bytes)
  : list (bytes * list bytes) :=
  if od_contains kv.1 d then od_append kv.1 kv.2 d
  else od_setitem kv.1 [kv.2] d.

Definition group_params (pairs : list (bytes * bytes))
  : list (bytes * list bytes) :=
  foldl od_add [] pairs.

(** The pairs of a form body, separators dropped. *)
Definition form_pairs (b : bytes) : list (bytes * bytes) :=
  map (fun p => (p.1.1, p.2)) (form_params b).

(** Pairs written [k=v], as the partition at '=' splits them again. *)
Definition triples (pairs : list (bytes * bytes))
  : list (bytes * bytes * bytes) :=
  map (fun kv => (kv.1, [equals], kv.2)) pairs.

End Filters.

(** ** Stand-ins for the libraries, to run the filters on

    Small but executable versions of the collaborators of the filters,
    good for URIs of the shape [path?k=v&k=v] written without escapes
    and in sorted order, for ASCII keys, and for the two JSON documents
    of the example of the design document. *)

Module FiltersDemo.

Import Filters.

Definition text (b : bytes) : string := string_of_list_byte b.
Definition raw (s : string) : bytes := list_byte_of_string s.

Definition question : byte := x3f.

Definition urlparse (u : string) : ParseResult :=
  let '(head, _, tail) := bytes_partition question (raw u) in
  mkParseResult "" "" (text head) "" (text tail) "".

Definition urlunparse (parts : ParseResult) : string :=
  if decide (query parts = "") then path parts
  else String.append (path parts) (String.append "?" (query parts)).

Definition urlencode (q : list (string * string)) : string :=
  text (bytes_join [amp]
          (map (fun kv => raw kv.1 ++ [equals] ++ raw kv.2) q)).

(** [parse_qsl] drops the pairs with a blank value. *)
Definition parse_qsl (qs : string) : list (string * string) :=
  omap (fun p : bytes * bytes * bytes =>
          match p.2 with
          | [] => None
          | _ :: _ => Some (text p.1.1, text p.2)
          end)
       (form_params (raw qs)).

Definition query_of (u : string) : list (string * string) :=
  parse_qsl (query (urlparse u)).

(** [k.decode('utf-8')] on ASCII; anything else is refused. *)
Definition utf8_decode (k : bytes) : option string :=
  if forallb (fun b => Nat.ltb (Byte.to_nat b) 128) k
  then Some (text k) else None.

(** The documents [{"a": 1, "b": 2}] and [{"b": 2}]. *)
Definition doc_a_b : bytes :=
  [x7b; x22; x61; x22; x3a; x20; x31; x2c; x20;
   x22; x62; x22; x3a; x20; x32; x7d].

Definition doc_b : bytes :=
  [x7b; x22; x62; x22; x3a; x20; x32; x7d].

Definition obj_a_b : gmap string nat := <["a" := 1]> (<["b" := 2]> ∅).
Definition obj_b : gmap string nat := <["b" := 2]> ∅.

Definition json_loads (b : bytes) : option (gmap string nat) :=
  if decide (b = doc_a_b) then Some obj_a_b
  else if decide (b = doc_b) then Some obj_b
  else None.

Definition json_dumps (d : gmap string nat) : bytes :=
  if decide (d = obj_a_b) then doc_a_b
  else if decide (d = obj_b) then doc_b
  else raw "{}".

Definition remove_query_parameters :=
  Filters.remove_query_parameters query_of urlparse urlencode urlunparse.

Definition remove_post_data_parameters :=
  Filters.remove_post_data_parameters json_loads json_dumps utf8_decode.

(** A form post and a JSON post. *)
Definition form_post : Request :=
  mkRequest "POST" "http://host/ride?id=1&token=t"
            (Bytes (raw "=x&a=1"))
            (<["Authorization" := "s1"]>
               (<["AUTHORIZATION" := "s2"]> (<["Accept" := "*/*"]> ∅))).

Definition json_post : Request :=
  mkRequest "POST" "http://host/ride?id=1&token=t"
            (Bytes doc_a_b)
            (<["Content-Type" := "application/json"]>
               (<["authorization" := "s3"]> ∅)).

End FiltersDemo.

(** ** class Cassette: the remaining properties and methods *)

Module CassetteRest.

Section WithTypes.

Context {Request Response MatchOn : Type}.

Abbreviation cassette := (@Cassette.t Request Response MatchOn).

(** [play_count]: [sum(self.play_counts.values())]. *)
Definition play_count (c : cassette) : nat :=
  sum_list (map_to_list (Cassette.play_counts c)).*2.

(** [__len__]: [len(self.data)]. *)
Definition __len__ (c : cassette) : nat := length (Cassette.data c).

(** [all_played]: [self.play_count == len(self)]. *)
Definition all_played (c : cassette) : bool :=
  Nat.eqb (play_count c) (__len__ c).

(** [requests]: [[request for (request, response) in self.data]]. *)
Definition requests (c : cassette) : list Request :=
  map fst (Cassette.data c).

(** [responses]: [[response for (request, response) in self.data]]. *)
Definition responses (c : cassette) : list Response :=
  map snd (Cassette.data c).

(** [_as_dict]: the dictionary with the keys "requests" and
    "responses", as the pair of its two values. *)
Definition _as_dict (c : cassette) : list Request * list Response :=
  (requests c, responses c).

(** The call [save_cassette(self._path, self._as_dict(), ...)] that
    [_save] makes, if it makes one. *)
Definition save_call (c : cassette) (force : bool)
  : option (string * (list Request * list Response)) :=
  if force || Cassette.dirty c then Some (Cassette._path c, _as_dict c)
  else None.

(** What the filters of [c] leave of stored pairs, in order: the pair is
    dropped when the request filter returns a falsy value. *)
Definition kept_pairs (c : cassette) (pairs : list (Request * Response))
  : list (Request * Response) :=
  omap (fun pair : Request * Response =>
          match Cassette._before_record_request c pair.1 with
          | Some kept =>
              Some (kept, Cassette._before_record_response c pair.2)
          | None => None
          end)
       pairs.

(** Storage that holds what [c] would save. *)
Definition storage_of (c : cassette) (path : string)
  : @Cassette.load_outcome Request Response :=
  Cassette.Loaded (requests c) (responses c).

(** A call that only replays or inspects: it is neither [append] nor a
    save nor a load. *)
Definition replay_only (o : @Cassette.op Request Response) : bool :=
  match o with
  | Cassette.OpPlayResponse _ | Cassette.OpResponsesOf _
  | Cassette.OpCanPlayResponseFor _ | Cassette.OpContains _ => true
  | _ => false
  end.

(** A call that is not a load that finds its storage. *)
Definition loads_nothing (path : string) (o : @Cassette.op Request Response)
  : bool :=
  match o with
  | Cassette.OpLoad load_cassette =>
      match load_cassette path with
      | Cassette.Loaded _ _ => false
      | _ => true
      end
  | _ => true
  end.

(** What holds of the play counts of a cassette that is only used
    through its methods: every stored count is one, at an index of an
    exchange. *)
Definition counts_ok (c : cassette) : Prop :=
  forall i n,
    Cassette.play_counts c !! i = Some n ->
    n = 1 /\ i < length (Cassette.data c).

(** The responses of the exchanges whose request matches [wanted], in
    order. *)
Definition matching_responses
    (requests_match : option Request -> Request -> MatchOn -> bool)
    (c : cassette) (wanted : option Request) : list Response :=
  omap (fun pair : Request * Response =>
          if requests_match wanted pair.1 (Cassette._match_on c)
          then Some pair.2 else None)
       (Cassette.data c).

End WithTypes.

End CassetteRest.

(** ** A cassette with two exchanges for the same request *)

Module DemoRest.

Definition two_exchanges (path : string)
  : @Cassette.load_outcome string string :=
  Cassette.Loaded ["http://host/eta"; "http://host/eta"]
                  ["200 first"; "200 second"].

(** [Cassette.load(path='eta.yaml')] on that storage. *)
Definition twice : @Cassette.t string string unit :=
  match Cassette.load two_exchanges "eta.yaml" "once" tt None None with
  | Ok c => c
  | Raise _ => Cassette.__init__ "eta.yaml" "once" tt None None
  end.

(** [twice] after one and after two replays of the request. *)
Definition twice_played_once : @Cassette.t string string unit :=
  fst (Cassette.play_response Demo.uri_match twice "http://host/eta").

Definition twice_played_twice : @Cassette.t string string unit :=
  fst (Cassette.play_response Demo.uri_match twice_played_once
         "http://host/eta").

(** [Demo.tagged] after one replay. *)
Definition tagged_played : @Cassette.t string string unit :=
  fst (Cassette.play_response Demo.uri_match Demo.tagged
         "http://host/ride?id=1").

End DemoRest.

(** * Properties *)

(** ** Counters and enumeration *)

Lemma counter_get_incr_same (counts : gmap nat nat) (i : nat) :
  counter_get (counter_incr counts i) i = counter_get counts i + 1.
Proof. unfold counter_incr, counter_get. by rewrite lookup_insert_eq. Qed.

Lemma counter_get_incr_other (counts : gmap nat nat) (i j : nat) :
  j <> i -> counter_get (counter_incr counts i) j = counter_get counts j.
Proof.
  intros Hne. unfold counter_incr, counter_get at 1 3.
  by rewrite lookup_insert_ne.
Qed.

Lemma counter_get_empty (i : nat) : counter_get ∅ i = 0.
Proof. unfold counter_get. by rewrite lookup_empty. Qed.

Lemma enumerate_from_lookup {A : Type} (l : list A) (start k : nat) :
  enumerate_from start l !! k = (fun x => (start + k, x)) <$> l !! k.
Proof.
  revert start k. induction l as [|x l IH]; intros start k; [done|].
  destruct k as [|k]; simpl.
  - by rewrite Nat.add_0_r.
  - rewrite IH. by replace (S start + k) with (start + S k) by lia.
Qed.

(** ** The cassette *)

Module CassetteSpec.

Section WithTypes.

Context {Request Response MatchOn : Type}.
Variable requests_match : option Request -> Request -> MatchOn -> bool.

Abbreviation cassette := (@Cassette.t Request Response MatchOn).
Abbreviation yield_of wanted match_on :=
  (fun '(index, (stored_request, response)) =>
     if requests_match wanted stored_request match_on
     then Some (index, response) else None).

(** The scan over the exchanges from index [start] on. *)
Lemma first_unplayed_scan (counts : gmap nat nat)
    (wanted : option Request) (match_on : MatchOn)
    (l : list (Request * Response)) (start : nat) :
  match Cassette.first_unplayed counts
          (omap (yield_of wanted match_on) (enumerate_from start l)) with
  | Some (i, response) =>
      exists k stored,
        i = start + k
        /\ l !! k = Some (stored, response)
        /\ requests_match wanted stored match_on = true
        /\ counter_get counts i = 0
        /\ forall k' stored' response',
             k' < k -> l !! k' = Some (stored', response') ->
             requests_match wanted stored' match_on = true ->
             counter_get counts (start + k') <> 0
  | None =>
      forall k' stored' response',
        l !! k' = Some (stored', response') ->
        requests_match wanted stored' match_on = true ->
        counter_get counts (start + k') <> 0
  end.
Proof.
  revert start. induction l as [|[stored response] l IH]; intros start.
  - simpl. intros k' ? ? Hk. by rewrite lookup_nil in Hk.
  - simpl. destruct (requests_match wanted stored match_on) eqn:Hm; simpl.
    + destruct (Nat.eqb (counter_get counts start) 0) eqn:Hz.
      * apply Nat.eqb_eq in Hz. exists 0, stored.
        rewrite Nat.add_0_r. repeat split; try done. intros; lia.
      * apply Nat.eqb_neq in Hz. specialize (IH (S start)).
        destruct (Cassette.first_unplayed counts _) as [[i r]|].
        -- destruct IH as (k & st & -> & Hk & Hmk & Hc & Hbefore).
           exists (S k), st. repeat split; try done; [lia|].
           intros [|k'] st' r' Hlt Hl Hm'; simpl in Hl.
           ++ by rewrite Nat.add_0_r.
           ++ replace (start + S k') with (S start + k') by lia.
              eapply Hbefore; eauto. lia.
        -- intros [|k'] st' r' Hl Hm'; simpl in Hl.
           ++ by rewrite Nat.add_0_r.
           ++ replace (start + S k') with (S start + k') by lia.
              eapply IH; eauto.
    + specialize (IH (S start)).
      destruct (Cassette.first_unplayed counts _) as [[i r]|].
      * destruct IH as (k & st & -> & Hk & Hmk & Hc & Hbefore).
        exists (S k), st. repeat split; try done; [lia|].
        intros [|k'] st' r' Hlt Hl Hm'; simpl in Hl.
        -- congruence.
        -- replace (start + S k') with (S start + k') by lia.
           eapply Hbefore; eauto. lia.
      * intros [|k'] st' r' Hl Hm'; simpl in Hl.
        -- congruence.
        -- replace (start + S k') with (S start + k') by lia.
           eapply IH; eauto.
Qed.

(** C1. [play_response] returns the response of the first exchange, in
    insertion order, that matches the filtered request and has play
    count zero, and raises exactly that count to one; when there is no
    such exchange it raises [UnhandledHTTPRequestError] with the path
    and the request, and the cassette is unchanged. *)
Theorem play_response_first_unplayed_match (c : cassette)
    (request : Request) :
  let wanted := Cassette._before_record_request c request in
  (exists i stored response,
      Cassette.data c !! i = Some (stored, response)
      /\ requests_match wanted stored (Cassette._match_on c) = true
      /\ counter_get (Cassette.play_counts c) i = 0
      /\ (forall j, j < i -> ~ Cassette.unplayed_match requests_match c wanted j)
      /\ Cassette.play_response requests_match c request =
           (Cassette.set_play_counts c (<[i := 1]> (Cassette.play_counts c)),
            Ok response)
      /\ counter_get (<[i := 1]> (Cassette.play_counts c)) i = 1
      /\ (forall j, j <> i ->
            counter_get (<[i := 1]> (Cassette.play_counts c)) j =
            counter_get (Cassette.play_counts c) j))
  \/ ((forall i, ~ Cassette.unplayed_match requests_match c wanted i)
      /\ Cassette.play_response requests_match c request =
           (c, Raise (Cassette.UnhandledHTTPRequestError
                        (Cassette._path c) request))).
Proof.
  intros wanted. unfold Cassette.play_response, Cassette._responses, enumerate.
  fold wanted.
  pose proof (first_unplayed_scan (Cassette.play_counts c) wanted
                (Cassette._match_on c) (Cassette.data c) 0) as Hscan.
  destruct (Cassette.first_unplayed _ _) as [[i response]|].
  - left. destruct Hscan as (k & stored & -> & Hk & Hm & Hc & Hbefore).
    simpl in *. exists k, stored, response. repeat split; try done.
    + intros j Hlt (st & r & Hj & Hmj & Hcj). by eapply (Hbefore j).
    + unfold counter_incr. by rewrite Hc.
    + unfold counter_get. by rewrite lookup_insert_eq.
    + intros j Hne. unfold counter_get. by rewrite lookup_insert_ne.
  - right. split; [|done].
    intros i (st & r & Hi & Hmi & Hci). by eapply (Hscan i).
Qed.

(** C2, as the code has it. [write_protected] holds exactly when the
    cassette is rewound with record mode "once", or the record mode is
    "none". *)
Theorem write_protected_once_rewound_or_none (c : cassette) :
  Cassette.write_protected c = true <->
  (Cassette.rewound c = true /\ Cassette.record_mode c = "once")
  \/ Cassette.record_mode c = "none".
Proof.
  unfold Cassette.write_protected.
  rewrite orb_true_iff, andb_true_iff, !String.eqb_eq. tauto.
Qed.

(** Membership is the existence of an unplayed match for the filtered
    request. *)
Lemma contains_unplayed_match (c : cassette) (request : Request) :
  Cassette.__contains__ requests_match c request = true <->
  exists i, Cassette.unplayed_match requests_match c
              (Cassette._before_record_request c request) i.
Proof.
  unfold Cassette.__contains__, Cassette._responses, enumerate.
  pose proof (first_unplayed_scan (Cassette.play_counts c)
                (Cassette._before_record_request c request)
                (Cassette._match_on c) (Cassette.data c) 0) as Hscan.
  destruct (Cassette.first_unplayed _ _) as [[i response]|].
  - split; [intros _|done].
    destruct Hscan as (k & stored & -> & Hk & Hm & Hc & _).
    exists k, stored, response. simpl in Hc. done.
  - split; [done|]. intros (i & st & r & Hi & Hm & Hc).
    by destruct (Hscan i st r Hi Hm).
Qed.

(** What [can_play_response_for] computes.  It is true exactly when
    the filter keeps the request, the kept request filtered once more
    (by [__contains__] through [_responses]) matches an unplayed
    exchange, the record mode is not "all" and the cassette is rewound;
    with record mode "all" it is false whatever the cassette holds. *)
Theorem can_play_response_for_filters_twice (c : cassette)
    (request : Request) :
  (Cassette.can_play_response_for requests_match c request = true <->
   (exists kept,
       Cassette._before_record_request c request = Some kept
       /\ exists i, Cassette.unplayed_match requests_match c
                      (Cassette._before_record_request c kept) i)
   /\ Cassette.record_mode c <> "all"
   /\ Cassette.rewound c = true)
  /\ Cassette.can_play_response_for requests_match
       (Cassette.set_record_mode c "all") request = false.
Proof.
  split.
  - unfold Cassette.can_play_response_for.
    destruct (Cassette._before_record_request c request) as [kept|] eqn:Hf.
    + rewrite !andb_true_iff, negb_true_iff, contains_unplayed_match.
      rewrite <- not_true_iff_false, String.eqb_eq.
      split.
      * intros [[Hin Hmode] Hrew]. split; [|done]. by exists kept.
      * intros [(kept' & Hk & Hin) [Hmode Hrew]].
        injection Hk as <-. done.
    + split; [done|]. by intros [(kept & Hk & _) _].
  - unfold Cassette.can_play_response_for. simpl.
    destruct (Cassette._before_record_request c request); [|done].
    by rewrite andb_false_r.
Qed.

(** [append] never touches the play counts. *)
Lemma append_play_counts (c : cassette) (request : Request)
    (response : Response) :
  Cassette.play_counts (Cassette.append c request response) =
  Cassette.play_counts c.
Proof.
  unfold Cassette.append.
  by destruct (Cassette._before_record_request c request).
Qed.

Lemma load_play_counts load_cassette (c c' : cassette) :
  Cassette._load load_cassette c = Ok c' ->
  Cassette.play_counts c' = Cassette.play_counts c.
Proof.
  unfold Cassette._load.
  destruct (load_cassette (Cassette._path c)) as [requests responses| |what];
    [|by intros [= <-]|done].
  intros [= <-]. simpl.
  generalize (combine requests responses). intros pairs. revert c.
  induction pairs as [|[request response] pairs IH]; intros c; [done|].
  simpl. rewrite IH. apply append_play_counts.
Qed.

Lemma step_play_counts_monotone (c : cassette)
    (o : Cassette.op) (i : nat) :
  counter_get (Cassette.play_counts c) i <=
  counter_get (Cassette.play_counts (Cassette.step requests_match c o)) i.
Proof.
  destruct o as [request response|request|request|request|request
                 |force save_ok|load_cassette]; simpl; try done.
  - by rewrite append_play_counts.
  - unfold Cassette.play_response.
    destruct (Cassette.first_unplayed _ _) as [[index response]|]; [|done].
    simpl. destruct (decide (i = index)) as [->|Hne].
    + rewrite counter_get_incr_same. lia.
    + by rewrite counter_get_incr_other.
  - unfold Cassette._save.
    destruct (force || Cassette.dirty c); [destruct save_ok|]; done.
  - destruct (Cassette._load load_cassette c) as [c'|e] eqn:Hl; [|done].
    by rewrite (load_play_counts _ _ _ Hl).
Qed.

(** A yielded pair that [first_unplayed] returns has play count zero. *)
Lemma first_unplayed_zero (counts : gmap nat nat)
    (yielded : list (nat * Response)) (index : nat) (response : Response) :
  Cassette.first_unplayed counts yielded = Some (index, response) ->
  counter_get counts index = 0.
Proof.
  induction yielded as [|[i r] yielded IH]; [done|]. simpl.
  destruct (Nat.eqb (counter_get counts i) 0) eqn:Hz; [|done].
  intros [= <- <-]. by apply Nat.eqb_eq.
Qed.

Lemma step_play_counts_at_most_one (c : cassette) (o : Cassette.op) :
  (forall i, counter_get (Cassette.play_counts c) i <= 1) ->
  forall i,
    counter_get (Cassette.play_counts (Cassette.step requests_match c o)) i
    <= 1.
Proof.
  intros Hc i.
  destruct o as [request response|request|request|request|request
                 |force save_ok|load_cassette]; simpl; try done.
  - by rewrite append_play_counts.
  - unfold Cassette.play_response.
    destruct (Cassette.first_unplayed _ _) as [[index response]|] eqn:Hf;
      [|done].
    simpl. apply first_unplayed_zero in Hf.
    destruct (decide (i = index)) as [->|Hne].
    + rewrite counter_get_incr_same. lia.
    + by rewrite counter_get_incr_other.
  - unfold Cassette._save.
    destruct (force || Cassette.dirty c); [destruct save_ok|]; done.
  - destruct (Cassette._load load_cassette c) as [c'|e] eqn:Hl; [|done].
    by rewrite (load_play_counts _ _ _ Hl).
Qed.

Lemma run_play_counts_monotone (ops : list Cassette.op) (c : cassette)
    (i : nat) :
  counter_get (Cassette.play_counts c) i <=
  counter_get (Cassette.play_counts (Cassette.run requests_match c ops)) i.
Proof.
  revert c. induction ops as [|o ops IH]; intros c; [done|]. simpl.
  etransitivity; [apply (step_play_counts_monotone c o)|apply IH].
Qed.

Lemma run_play_counts_at_most_one (ops : list Cassette.op) (c : cassette) :
  (forall i, counter_get (Cassette.play_counts c) i <= 1) ->
  forall i,
    counter_get (Cassette.play_counts (Cassette.run requests_match c ops)) i
    <= 1.
Proof.
  revert c. induction ops as [|o ops IH]; intros c Hc; [done|]. simpl.
  apply IH. by apply step_play_counts_at_most_one.
Qed.

(** C4. Starting from a freshly constructed cassette, along any sequence
    of calls (append, play_response, responses_of, can_play_response_for,
    membership, save, load) every play count only grows, and none ever
    exceeds one. *)
Theorem play_counts_monotone_and_at_most_one (path mode : string)
    (match_on : MatchOn)
    (before_record_request : option (Request -> option Request))
    (before_record_response : option (Response -> Response))
    (earlier later : list Cassette.op) (i : nat) :
  let fresh := Cassette.__init__ path mode match_on
                 before_record_request before_record_response in
  let count ops :=
    counter_get
      (Cassette.play_counts (Cassette.run requests_match fresh ops)) i in
  count earlier <= count (earlier ++ later)
  /\ count (earlier ++ later) <= 1.
Proof.
  intros fresh count. unfold count. split.
  - unfold Cassette.run. rewrite fold_left_app.
    apply run_play_counts_monotone.
  - apply run_play_counts_at_most_one. intros j. simpl.
    rewrite counter_get_empty. lia.
Qed.

(** C5. [append] runs the request filter; a falsy result leaves the
    cassette as it was; otherwise the filtered request and the filtered
    response are added at the end of the exchanges and the cassette is
    dirty, everything else being kept. *)
Theorem append_filters_then_stores (c : cassette) (request : Request)
    (response : Response) :
  let c' := Cassette.append c request response in
  (Cassette._before_record_request c request = None /\ c' = c)
  \/ (exists kept,
        Cassette._before_record_request c request = Some kept
        /\ Cassette.data c' =
             Cassette.data c
             ++ [(kept, Cassette._before_record_response c response)]
        /\ Cassette.dirty c' = true
        /\ Cassette.play_counts c' = Cassette.play_counts c
        /\ Cassette.rewound c' = Cassette.rewound c
        /\ Cassette.record_mode c' = Cassette.record_mode c
        /\ Cassette._path c' = Cassette._path c).
Proof.
  intros c'. unfold c', Cassette.append.
  destruct (Cassette._before_record_request c request) as [kept|].
  - right. by exists kept.
  - by left.
Qed.

(** C6. When the storage read raises [IOError], [load] does not raise:
    it returns a cassette with no exchange, every play count zero, and
    the dirty flag clear. *)
Theorem load_absent_storage_is_empty
    (load_cassette : string -> Cassette.load_outcome)
    (path mode : string) (match_on : MatchOn)
    (before_record_request : option (Request -> option Request))
    (before_record_response : option (Response -> Response)) :
  load_cassette path = Cassette.LoadIOError ->
  exists c : cassette,
    Cassette.load load_cassette path mode match_on
                  before_record_request before_record_response = Ok c
    /\ Cassette.data c = []
    /\ (forall i, counter_get (Cassette.play_counts c) i = 0)
    /\ Cassette.dirty c = false
    /\ Cassette.rewound c = false.
Proof.
  intros Habsent. unfold Cassette.load, Cassette._load. simpl.
  rewrite Habsent. eexists. split; [done|]. simpl.
  repeat split; try done.
Qed.

End WithTypes.

(** C2, as documented, fails: a cassette made with record mode "none" is
    write protected although it is neither rewound in mode "once" nor in
    a mode called "never". *)
Lemma write_protected_never_counterexample :
  ~ (Cassette.write_protected Demo.playback_only = true <->
     Cassette.write_protected_as_documented Demo.playback_only).
Proof.
  intros [Hcode _]. specialize (Hcode eq_refl).
  destruct Hcode as [[Hrew _]|Hmode]; discriminate.
Qed.

(** C3 on a cassette whose request filter is not idempotent.  The stored
    exchange matches the request filtered once, it is unplayed, the mode
    is "once" and the cassette is rewound, so the documented condition
    holds, and [play_response] does return the response; yet
    [can_play_response_for] answers no, because the membership test
    filters the already filtered request again. *)
Lemma can_play_response_for_filters_again_at_tagged :
  Cassette.can_play_as_documented Demo.uri_match Demo.tagged
    "http://host/ride?id=1"
  /\ snd (Cassette.play_response Demo.uri_match Demo.tagged
            "http://host/ride?id=1") = Ok "200 OK"
  /\ Cassette.can_play_response_for Demo.uri_match Demo.tagged
       "http://host/ride?id=1" = false.
Proof.
  split; [|split; reflexivity].
  split; [|split; [discriminate|reflexivity]].
  exists 0, "http://host/ride?id=1&seen=1", "200 OK".
  repeat split; reflexivity.
Qed.

(** [load] on absent storage, run on the demo configuration. *)
Lemma load_absent_storage_is_empty_witness :
  exists c : @Cassette.t string string unit,
    Cassette.load Demo.no_storage "rides.yaml" "once" tt None None = Ok c
    /\ Cassette.data c = []
    /\ (forall i, counter_get (Cassette.play_counts c) i = 0)
    /\ Cassette.dirty c = false
    /\ Cassette.rewound c = false.
Proof.
  apply (load_absent_storage_is_empty Demo.no_storage). reflexivity.
Defined.

End CassetteSpec.

(** ** The filters *)

Module FiltersSpec.

Import Filters.

(** [pop_all] on distinct keys that are all present removes exactly
    them and does not raise. *)
Lemma pop_all_present (keys : list string) (d : gmap string string) :
  NoDup keys ->
  (forall k, k ∈ keys -> is_Some (d !! k)) ->
  exists d',
    pop_all keys d = Ok d'
    /\ forall k, d' !! k = if decide (k ∈ keys) then None else d !! k.
Proof.
  revert d. induction keys as [|k0 keys IH]; intros d Hnd Hin.
  - exists d. split; [done|]. intros k. by rewrite decide_False by set_solver.
  - apply NoDup_cons in Hnd as [Hk0 Hnd].
    destruct (Hin k0) as [x Hx]; [set_solver|].
    simpl. unfold dict_pop. rewrite Hx. simpl.
    destruct (IH (delete k0 d) Hnd) as (d' & Hpop & Hlook).
    + intros k Hk. rewrite lookup_delete_ne by set_solver.
      apply Hin. set_solver.
    + exists d'. split; [done|]. intros k. rewrite Hlook.
      destruct (decide (k = k0)) as [->|Hne].
      * rewrite decide_False by done. rewrite lookup_delete_eq.
        by rewrite decide_True by set_solver.
      * rewrite lookup_delete_ne by done.
        destruct (decide (k ∈ keys)).
        -- by rewrite decide_True by set_solver.
        -- by rewrite decide_False by (by apply not_elem_of_cons).
Qed.

(** What [remove_headers] returns: never an exception; the headers
    without the keys whose lowered form is a lowered listed name. *)
Lemma remove_headers_result (request : Request) (names : list string) :
  exists request',
    remove_headers request names = Ok request'
    /\ method request' = method request
    /\ uri request' = uri request
    /\ body request' = body request
    /\ (forall k,
          headers request' !! k =
          if decide (lower k ∈ lower <$> names) then None
          else headers request !! k)
    /\ ((forall k, is_Some (headers request !! k) ->
                   lower k ∉ lower <$> names) ->
        request' = request).
Proof.
  unfold remove_headers.
  set (keys := filter (fun k => lower k ∈ lower <$> names)
                      (map_to_list (headers request)).*1).
  assert (forall k, k ∈ keys <->
            lower k ∈ lower <$> names /\ is_Some (headers request !! k))
    as Hkeys.
  { intros k. unfold keys. rewrite list_elem_of_filter. split.
    - intros [Hl Hin]. split; [done|].
      apply list_elem_of_fmap in Hin as ([k' x] & -> & Hin).
      apply elem_of_map_to_list in Hin. by exists x.
    - intros [Hl [x Hx]]. split; [done|].
      apply list_elem_of_fmap. exists (k, x). split; [done|].
      by apply elem_of_map_to_list. }
  assert (NoDup keys) as Hnd.
  { unfold keys. apply NoDup_filter, NoDup_fst_map_to_list. }
  destruct (pop_all_present keys (headers request) Hnd) as (d' & Hpop & Hlook).
  { intros k Hk. by apply Hkeys in Hk as [_ ?]. }
  assert (forall k,
            d' !! k = if decide (lower k ∈ lower <$> names) then None
                      else headers request !! k) as Hlook'.
  { intros k. rewrite Hlook.
    destruct (decide (k ∈ keys)) as [Hin|Hnot].
    - apply Hkeys in Hin as [Hl _]. by rewrite decide_True.
    - destruct (decide (lower k ∈ lower <$> names)) as [Hl|]; [|done].
      destruct (headers request !! k) eqn:Hx; [|done].
      destruct Hnot. apply Hkeys. split; [done|]. rewrite Hx. by eexists. }
  destruct keys as [|k0 keys'] eqn:Hk0.
  - exists request. repeat split; try done.
    intros k. rewrite <- Hlook'. rewrite Hlook. by rewrite decide_False
      by apply not_elem_of_nil.
  - rewrite Hpop. simpl. eexists. split; [done|]. simpl.
    repeat split; [done|].
    intros Hnone. exfalso.
    assert (k0 ∈ k0 :: keys') as Hin by (apply elem_of_cons; by left).
    apply Hkeys in Hin as [Hl Hsome]. by apply (Hnone k0).
Qed.

Lemma lower_listed (names : list string) (k : string) :
  lower k ∈ lower <$> names <->
  exists name, name ∈ names /\ lower k = lower name.
Proof.
  rewrite list_elem_of_fmap.
  split; intros (name & H1 & H2); exists name; by split.
Qed.

(** C9. [remove_headers] does not raise; it removes every header whose
    key equals a listed name up to ASCII case, keeps every other header
    and every other field, and returns the request itself when no key
    matches. *)
Theorem remove_headers_case_insensitive (request : Request)
    (names : list string) :
  exists request',
    remove_headers request names = Ok request'
    /\ method request' = method request
    /\ uri request' = uri request
    /\ body request' = body request
    /\ (forall k name,
          name ∈ names -> lower k = lower name ->
          headers request' !! k = None)
    /\ (forall k,
          (forall name, name ∈ names -> lower k <> lower name) ->
          headers request' !! k = headers request !! k)
    /\ ((forall k name,
           is_Some (headers request !! k) -> name ∈ names ->
           lower k <> lower name) ->
        request' = request).
Proof.
  destruct (remove_headers_result request names)
    as (request' & Hok & Hm & Hu & Hb & Hlook & Hsame).
  exists request'. repeat split; try done.
  - intros k name Hname Hl. rewrite Hlook, decide_True; [done|].
    apply lower_listed. eauto.
  - intros k Hk. rewrite Hlook, decide_False; [done|].
    intros (name & Hname & Hl)%lower_listed. by apply (Hk name).
  - intros Hnone. apply Hsame. intros k Hsome (name & Hname & Hl)%lower_listed.
    by apply (Hnone k name).
Qed.

(** Applying [remove_headers] to its own result changes nothing. *)
Lemma remove_headers_twice (request : Request) (names : list string) :
  bind (remove_headers request names) (fun r => remove_headers r names) =
  remove_headers request names.
Proof.
  destruct (remove_headers_result request names)
    as (r1 & Hok & _ & _ & _ & Hlook & _).
  rewrite Hok. simpl.
  destruct (remove_headers_result r1 names)
    as (r2 & Hok2 & _ & _ & _ & _ & Hsame).
  rewrite Hok2. f_equal. apply Hsame.
  intros k Hsome Hl. rewrite Hlook, decide_True in Hsome by done.
  by destruct Hsome.
Qed.

Lemma list_filter_iff_on {A : Type} (P1 P2 : A -> Prop)
    `{!forall x, Decision (P1 x), !forall x, Decision (P2 x)} (l : list A) :
  (forall x, x ∈ l -> P1 x <-> P2 x) -> filter P1 l = filter P2 l.
Proof.
  induction l as [|a l IH]; intros Hiff; [done|].
  assert (filter P1 l = filter P2 l) as Hl.
  { apply IH. intros x Hx. apply Hiff. by apply elem_of_cons; right. }
  assert (P1 a <-> P2 a) as Ha by (apply Hiff; by apply elem_of_cons; left).
  destruct (decide (P1 a)).
  - rewrite !filter_cons_True by tauto. by rewrite Hl.
  - rewrite !filter_cons_False by tauto. by rewrite Hl.
Qed.

(** *** Byte strings *)

Lemma bytes_split_piece (sep : byte) (piece rest : bytes) :
  sep ∉ piece ->
  bytes_split sep (piece ++ sep :: rest) = piece :: bytes_split sep rest.
Proof.
  induction piece as [|b piece IH]; intros Hsep; simpl.
  - by rewrite decide_True.
  - apply not_elem_of_cons in Hsep as [Hne Hsep].
    rewrite decide_False by done. by rewrite IH.
Qed.

Lemma bytes_split_whole (sep : byte) (piece : bytes) :
  sep ∉ piece -> bytes_split sep piece = [piece].
Proof.
  induction piece as [|b piece IH]; intros Hsep; simpl; [done|].
  apply not_elem_of_cons in Hsep as [Hne Hsep].
  rewrite decide_False by done. by rewrite IH.
Qed.

Lemma bytes_split_join (sep : byte) (pieces : list bytes) :
  pieces <> [] ->
  Forall (fun piece => sep ∉ piece) pieces ->
  bytes_split sep (bytes_join [sep] pieces) = pieces.
Proof.
  induction pieces as [|piece pieces IH]; intros Hne Hall; [done|].
  apply Forall_cons in Hall as [Hp Hall].
  destruct pieces as [|piece' pieces].
  - simpl. by apply bytes_split_whole.
  - change (bytes_join [sep] (piece :: piece' :: pieces))
      with (piece ++ sep :: bytes_join [sep] (piece' :: pieces)).
    rewrite bytes_split_piece by done. f_equal. by apply IH.
Qed.

Lemma bytes_split_no_sep (sep : byte) (s : bytes) :
  Forall (fun piece => sep ∉ piece) (bytes_split sep s).
Proof.
  induction s as [|b s IH]; simpl.
  - apply Forall_cons. split; [apply not_elem_of_nil|apply Forall_nil_2].
  - destruct (decide (b = sep)) as [->|Hne].
    + apply Forall_cons. split; [apply not_elem_of_nil|done].
    + destruct (bytes_split sep s) as [|piece pieces].
      * apply Forall_cons. split; [|apply Forall_nil_2].
        apply not_elem_of_cons. split; [done|apply not_elem_of_nil].
      * apply Forall_cons in IH as [Hp Hps]. apply Forall_cons.
        split; [|done]. apply not_elem_of_cons. by split.
Qed.

Lemma bytes_partition_parts (sep : byte) (s : bytes) :
  (sep ∉ (bytes_partition sep s).1.1)
  /\ (forall b, b ∈ (bytes_partition sep s).1.1 -> b ∈ s)
  /\ (forall b, b ∈ (bytes_partition sep s).2 -> b ∈ s).
Proof.
  induction s as [|b s IH]; simpl.
  - repeat split; [apply not_elem_of_nil|done|done].
  - destruct (decide (b = sep)) as [->|Hne]; simpl.
    + repeat split; [apply not_elem_of_nil| |].
      * intros b Hb. by apply elem_of_nil in Hb.
      * intros b Hb. by apply elem_of_cons; right.
    + destruct (bytes_partition sep s) as [[head found] tail]. simpl in *.
      destruct IH as (Hsep & Hhead & Htail). repeat split.
      * apply not_elem_of_cons. by split.
      * intros b' Hb'. apply elem_of_cons in Hb' as [->|Hb'];
          apply elem_of_cons; [by left|right; by apply Hhead].
      * intros b' Hb'. apply elem_of_cons. right. by apply Htail.
Qed.

Lemma bytes_partition_at (sep : byte) (k v : bytes) :
  sep ∉ k -> bytes_partition sep (k ++ sep :: v) = (k, [sep], v).
Proof.
  induction k as [|b k IH]; intros Hsep; simpl.
  - by rewrite decide_True.
  - apply not_elem_of_cons in Hsep as [Hne Hsep].
    rewrite decide_False by done. by rewrite IH.
Qed.

(** Every partitioned piece of a body is clean. *)
Lemma form_params_clean (b : bytes) : Forall clean_param (form_params b).
Proof.
  unfold form_params. apply Forall_fmap.
  eapply Forall_impl; [apply (bytes_split_no_sep amp)|].
  intros piece Hamp. unfold clean_param. simpl.
  destruct (bytes_partition_parts equals piece) as (Heq & Hhead & Htail).
  repeat split; [done| |]; intros Hin; apply Hamp; auto.
Qed.

(** *** The ordered dictionary *)

Lemma od_contains_true (k : bytes) (d : list (bytes * list bytes)) :
  od_contains k d = true <-> k ∈ d.*1.
Proof. unfold od_contains. apply bool_decide_eq_true. Qed.

Lemma od_contains_false (k : bytes) (d : list (bytes * list bytes)) :
  od_contains k d = false <-> k ∉ d.*1.
Proof. unfold od_contains. apply bool_decide_eq_false. Qed.

Lemma od_setitem_new (k : bytes) (vals : list bytes)
    (d : list (bytes * list bytes)) :
  k ∉ d.*1 -> od_setitem k vals d = d ++ [(k, vals)].
Proof.
  induction d as [|[k' vals'] d IH]; intros Hk; simpl; [done|].
  rewrite fmap_cons in Hk. apply not_elem_of_cons in Hk as [Hne Hk].
  rewrite decide_False by done. by rewrite IH.
Qed.

Lemma od_append_at (k v : bytes) (vals : list bytes)
    (d1 d2 : list (bytes * list bytes)) :
  k ∉ d1.*1 ->
  od_append k v (d1 ++ (k, vals) :: d2) = d1 ++ (k, vals ++ [v]) :: d2.
Proof.
  induction d1 as [|[k' vals'] d1 IH]; intros Hk; simpl.
  - by rewrite decide_True.
  - rewrite fmap_cons in Hk. apply not_elem_of_cons in Hk as [Hne Hk].
    rewrite decide_False by done. by rewrite IH.
Qed.

Lemma od_append_keys (k v : bytes) (d : list (bytes * list bytes)) :
  (od_append k v d).*1 = d.*1.
Proof.
  induction d as [|[k' vals'] d IH]; simpl; [done|].
  destruct (decide (k' = k)); simpl; [done|]. f_equal. apply IH.
Qed.

Lemma od_add_keys (d : list (bytes * list bytes)) (kv : bytes * bytes) :
  forall k, k ∈ (od_add d kv).*1 <-> k ∈ d.*1 \/ k = kv.1.
Proof.
  intros k. destruct kv as [k0 v0]. unfold od_add. simpl.
  destruct (od_contains k0 d) eqn:Hc.
  - rewrite od_append_keys. apply od_contains_true in Hc.
    split; [by left|]. by intros [?| ->].
  - apply od_contains_false in Hc. rewrite od_setitem_new by done.
    rewrite fmap_app, elem_of_app. simpl. by rewrite list_elem_of_singleton.
Qed.

Lemma od_pairs_app (d1 d2 : list (bytes * list bytes)) :
  od_pairs (d1 ++ d2) = od_pairs d1 ++ od_pairs d2.
Proof. unfold od_pairs. apply flat_map_app. Qed.

Lemma od_append_pairs (k v : bytes) (d : list (bytes * list bytes)) :
  k ∈ d.*1 ->
  forall p, p ∈ od_pairs (od_append k v d) <-> p ∈ od_pairs d \/ p = (k, v).
Proof.
  induction d as [|[k' vals'] d IH]; intros Hk p.
  - by apply elem_of_nil in Hk.
  - simpl. destruct (decide (k' = k)) as [->|Hne].
    + unfold od_pairs. simpl. rewrite map_app, !elem_of_app. simpl.
      rewrite list_elem_of_singleton. tauto.
    + rewrite fmap_cons in Hk. apply elem_of_cons in Hk as [Hk|Hk];
        [by destruct Hne|].
      unfold od_pairs in *. simpl. rewrite !elem_of_app, (IH Hk p). tauto.
Qed.

Lemma od_add_pairs (d : list (bytes * list bytes)) (kv : bytes * bytes) :
  forall p, p ∈ od_pairs (od_add d kv) <-> p ∈ od_pairs d \/ p = kv.
Proof.
  intros p. destruct kv as [k v]. unfold od_add. simpl.
  destruct (od_contains k d) eqn:Hc.
  - apply od_contains_true in Hc. by apply od_append_pairs.
  - apply od_contains_false in Hc. rewrite od_setitem_new by done.
    rewrite od_pairs_app, elem_of_app. unfold od_pairs at 2. simpl.
    by rewrite list_elem_of_singleton.
Qed.

Lemma group_pairs (pairs : list (bytes * bytes))
    (d : list (bytes * list bytes)) :
  forall p, p ∈ od_pairs (foldl od_add d pairs) <->
            p ∈ od_pairs d \/ p ∈ pairs.
Proof.
  revert d. induction pairs as [|kv pairs IH]; intros d p; simpl.
  - rewrite elem_of_nil. tauto.
  - rewrite IH, od_add_pairs, elem_of_cons. tauto.
Qed.

Lemma group_keys (pairs : list (bytes * bytes))
    (d : list (bytes * list bytes)) :
  forall k, k ∈ (foldl od_add d pairs).*1 <-> k ∈ d.*1 \/ k ∈ pairs.*1.
Proof.
  revert d. induction pairs as [|kv pairs IH]; intros d k.
  - simpl. rewrite elem_of_nil. tauto.
  - change (foldl od_add d (kv :: pairs))
      with (foldl od_add (od_add d kv) pairs).
    rewrite IH, od_add_keys, fmap_cons, elem_of_cons. tauto.
Qed.

Section WithLibraries.

Context {Json : Type}.
Variable query_of : string -> list (string * string).
Variable urlparse : string -> ParseResult.
Variable urlencode : list (string * string) -> string.
Variable urlunparse : ParseResult -> string.
Variable json_loads : bytes -> option (gmap string Json).
Variable json_dumps : gmap string Json -> bytes.
Variable utf8_decode : bytes -> option string.

Abbreviation remove_query_parameters :=
  (Filters.remove_query_parameters query_of urlparse urlencode urlunparse).
Abbreviation remove_post_data_parameters :=
  (Filters.remove_post_data_parameters json_loads json_dumps utf8_decode).

Lemma keep_query_all (names : list string) (q : list (string * string)) :
  (forall k v, (k, v) ∈ q -> k ∉ names) -> keep_query names q = q.
Proof.
  unfold keep_query. induction q as [|[k v] q IH]; intros Hq; [done|].
  rewrite filter_cons_True by (simpl; apply (Hq k v); set_solver).
  f_equal. apply IH. intros k' v' Hin. apply (Hq k' v'). set_solver.
Qed.

(** C8. When no parameter of the query of the URI is named in the list,
    [remove_query_parameters] returns the request as it received it: the
    URI is not rebuilt. *)
Theorem remove_query_parameters_no_match (request : Request)
    (names : list string) :
  (forall k v, (k, v) ∈ query_of (uri request) -> k ∉ names) ->
  remove_query_parameters request names = request.
Proof.
  intros Hq. unfold Filters.remove_query_parameters.
  rewrite (keep_query_all _ _ Hq). by rewrite decide_False by (intros ?; done).
Qed.

Abbreviation form_loop := (Filters.form_loop utf8_decode).
Abbreviation form_kept := (Filters.form_kept utf8_decode).

(** The loop over a form body groups the surviving pairs, when every
    key that is not empty decodes. *)
Lemma form_loop_groups (names : list string)
    (ps : list (bytes * bytes * bytes)) (d : list (bytes * list bytes)) :
  (forall p, p ∈ ps -> p.1.1 <> [] -> is_Some (utf8_decode p.1.1)) ->
  (forall k v, k ∈ d.*1 -> form_kept names (k, v) = true) ->
  form_loop names ps d =
  Ok (foldl od_add d
        (filter (fun kv => form_kept names kv = true)
                (map (fun p => (p.1.1, p.2)) ps))).
Proof.
  revert d. induction ps as [|[[k sep] v] ps IH]; intros d Hdec Hd; [done|].
  assert (forall p, p ∈ ps -> p.1.1 <> [] -> is_Some (utf8_decode p.1.1))
    as Hdec'.
  { intros p Hp. apply Hdec. by apply elem_of_cons; right. }
  change (map (fun p => (p.1.1, p.2)) ((k, sep, v) :: ps))
    with ((k, v) :: map (fun p => (p.1.1, p.2)) ps).
  change (form_loop names ((k, sep, v) :: ps) d)
    with (bind (form_step utf8_decode names d (k, sep, v))
               (form_loop names ps)).
  unfold form_step.
  destruct (od_contains k d) eqn:Hc.
  - rewrite filter_cons_True
      by (apply Hd; by apply od_contains_true).
    change (foldl od_add d ((k, v) :: ?l))
      with (foldl od_add (od_add d (k, v)) l).
    unfold od_add at 2. simpl. rewrite Hc.
    apply IH; [done|]. intros k' v'. rewrite od_append_keys. apply Hd.
  - destruct k as [|b k].
    + rewrite filter_cons_False by (by unfold Filters.form_kept).
      simpl. by apply IH.
    + change (Nat.ltb 0 (length (b :: k))) with true. cbv iota.
      destruct (Hdec (b :: k, sep, v)) as [name Hname];
        [by apply elem_of_cons; left|done|].
      simpl in Hname. rewrite Hname.
      assert (form_kept names (b :: k, v) = bool_decide (name ∉ names))
        as Hkept.
      { unfold Filters.form_kept. simpl. by rewrite Hname. }
      destruct (bool_decide (name ∉ names)) eqn:Hn.
      * rewrite filter_cons_True by done.
        change (foldl od_add d ((b :: k, v) :: ?l))
          with (foldl od_add (od_add d (b :: k, v)) l).
        unfold od_add at 2. simpl. rewrite Hc.
        apply IH; [done|].
        intros k' v' Hk'. apply od_contains_false in Hc.
        rewrite od_setitem_new in Hk' by done.
        rewrite fmap_app in Hk'. apply elem_of_app in Hk' as [Hk'|Hk'].
        -- by apply Hd.
        -- apply list_elem_of_singleton in Hk' as ->.
           unfold Filters.form_kept. simpl. by rewrite Hname.
      * rewrite filter_cons_False by (by rewrite Hkept).
        simpl. by apply IH.
Qed.

(** C10. On a POST request whose body is a byte string and whose content
    type is not JSON, with an empty removal list, the body written back
    is the grouping of the pairs whose key is not empty: no entry has an
    empty key, every pair with a key that is not empty is kept, and
    nothing else appears. *)
Theorem remove_post_data_parameters_drops_empty_keys (request : Request)
    (b : bytes) :
  method request = "POST" ->
  body request = Bytes b ->
  headers request !! "Content-Type" <> Some "application/json" ->
  (forall kv, kv ∈ form_pairs b -> kv.1 <> [] -> is_Some (utf8_decode kv.1)) ->
  let post_data :=
    group_params (filter (fun kv => kv.1 <> []) (form_pairs b)) in
  remove_post_data_parameters request [] =
    Ok (set_body request (Bytes (form_render post_data)))
  /\ (forall k vals, (k, vals) ∈ post_data -> k <> [])
  /\ (forall k v, (k, v) ∈ od_pairs post_data <->
                  (k, v) ∈ form_pairs b /\ k <> []).
Proof.
  intros Hpost Hbody Hform Hdec post_data.
  assert (forall kv, kv ∈ form_pairs b ->
            form_kept [] kv = true <-> kv.1 <> []) as Hkept.
  { intros [k v] Hin. unfold Filters.form_kept. simpl.
    destruct (decide (k = [])) as [->|Hne].
    - rewrite bool_decide_eq_true_2 by done. simpl. by split.
    - rewrite bool_decide_eq_false_2 by done. simpl.
      destruct (Hdec (k, v) Hin Hne) as [name Hname].
      simpl in Hname. rewrite Hname. by split. }
  split; [|split].
  - unfold Filters.remove_post_data_parameters.
    rewrite Hpost, Hbody. simpl.
    rewrite bool_decide_eq_false_2 by done.
    rewrite form_loop_groups.
    + fold (form_pairs b).
      by rewrite (list_filter_iff_on (fun kv => form_kept [] kv = true)
                    (fun kv => kv.1 <> []) (form_pairs b) Hkept).
    + intros [[k sep] v] Hin Hne. simpl in *.
      apply (Hdec (k, v)); [|done]. unfold form_pairs.
      apply list_elem_of_In, in_map_iff. exists (k, sep, v).
      split; [done|]. by apply list_elem_of_In.
    + intros k v Hk. by apply elem_of_nil in Hk.
  - intros k vals Hin.
    assert (k ∈ post_data.*1) as Hk.
    { apply list_elem_of_fmap. by exists (k, vals). }
    apply group_keys in Hk as [Hk|Hk]; [by apply elem_of_nil in Hk|].
    apply list_elem_of_fmap in Hk as ([k' v'] & -> & Hin').
    by apply list_elem_of_filter in Hin' as [Hne _].
  - intros k v. unfold post_data, group_params. rewrite group_pairs.
    rewrite list_elem_of_filter. unfold od_pairs at 1. simpl.
    rewrite elem_of_nil. tauto.
Qed.

Abbreviation post_data_ok := (Filters.post_data_ok utf8_decode).
Abbreviation form_step := (Filters.form_step utf8_decode).

(** *** A form body filtered twice *)

Lemma od_append_Forall (Q : bytes * list bytes -> Prop) (k v : bytes)
    (d : list (bytes * list bytes)) :
  (forall vals, Q (k, vals) -> Q (k, vals ++ [v])) ->
  Forall Q d -> Forall Q (od_append k v d).
Proof.
  intros Hgrow. induction 1 as [|[k' vals'] d Hhd Htl IH]; simpl.
  - apply Forall_nil_2.
  - destruct (decide (k' = k)) as [->|Hne]; apply Forall_cons; auto.
Qed.

Lemma form_step_ok (names : list string) (d d' : list (bytes * list bytes))
    (p : bytes * bytes * bytes) :
  post_data_ok names d -> clean_param p ->
  form_step names d p = Ok d' -> post_data_ok names d'.
Proof.
  destruct p as [[k sep] v]. intros [Hnd Hall] (Heq & Hamp & Hampv).
  simpl in Heq, Hamp, Hampv. unfold Filters.form_step.
  destruct (od_contains k d) eqn:Hc.
  - intros [= <-]. split; [by rewrite od_append_keys|].
    apply od_append_Forall; [|done]. simpl.
    intros vals (Hk & He & Ha & Hd & Hv & Hvs).
    repeat split; try done.
    + by destruct vals.
    + apply Forall_app. split; [done|]. by apply Forall_singleton.
  - destruct k as [|b k]; [by intros [= <-]|].
    change (Nat.ltb 0 (length (b :: k))) with true. cbv iota.
    destruct (utf8_decode (b :: k)) as [name|] eqn:Hname; [|done].
    destruct (bool_decide (name ∉ names)) eqn:Hn; intros [= <-]; [|done].
    apply bool_decide_eq_true in Hn. apply od_contains_false in Hc.
    rewrite od_setitem_new by done. split.
    + rewrite fmap_app. apply NoDup_app. repeat split; [done| |].
      * intros k' Hk' ->%list_elem_of_singleton. done.
      * apply NoDup_singleton.
    + apply Forall_app. split; [done|]. apply Forall_singleton. simpl.
      repeat split; try done.
      * by exists name.
      * by apply Forall_singleton.
Qed.

Lemma form_loop_ok (names : list string) (ps : list (bytes * bytes * bytes))
    (d d' : list (bytes * list bytes)) :
  post_data_ok names d -> Forall clean_param ps ->
  form_loop names ps d = Ok d' -> post_data_ok names d'.
Proof.
  revert d. induction ps as [|p ps IH]; intros d Hd Hps; simpl.
  - by intros [= <-].
  - apply Forall_cons in Hps as [Hp Hps].
    destruct (form_step names d p) as [d1|e] eqn:Hstep; [|done]. simpl.
    apply IH; [|done]. by eapply form_step_ok.
Qed.

(** Replaying the values of one key on an entry that is last. *)
Lemma form_loop_values (names : list string) (k : bytes)
    (vs vals : list bytes) (rest : list (bytes * bytes * bytes))
    (d : list (bytes * list bytes)) :
  k ∉ d.*1 ->
  form_loop names (triples (map (fun v => (k, v)) vs) ++ rest)
            (d ++ [(k, vals)]) =
  form_loop names rest (d ++ [(k, vals ++ vs)]).
Proof.
  intros Hk. revert vals. induction vs as [|v vs IH]; intros vals.
  - by rewrite app_nil_r.
  - change (form_loop names
              (triples (map (fun v => (k, v)) (v :: vs)) ++ rest)
              (d ++ [(k, vals)]))
      with (bind (form_step names (d ++ [(k, vals)]) (k, [equals], v))
              (form_loop names
                 (triples (map (fun v => (k, v)) vs) ++ rest))).
    unfold Filters.form_step.
    assert (od_contains k (d ++ [(k, vals)]) = true) as ->.
    { apply od_contains_true. rewrite fmap_app. apply elem_of_app. right.
      by apply list_elem_of_singleton. }
    rewrite od_append_at by done. simpl.
    rewrite IH. by rewrite <- app_assoc.
Qed.

(** Replaying the pairs of well-formed entries rebuilds the entries. *)
Lemma form_loop_rebuild (names : list string)
    (d2 d1 : list (bytes * list bytes)) :
  post_data_ok names (d1 ++ d2) ->
  form_loop names (triples (od_pairs d2)) d1 = Ok (d1 ++ d2).
Proof.
  revert d1. induction d2 as [|[k vals] d2 IH]; intros d1 Hok.
  - by rewrite app_nil_r.
  - pose proof Hok as [Hnd Hall].
    rewrite fmap_app, fmap_cons in Hnd. simpl in Hnd.
    apply NoDup_app in Hnd as (_ & Hfresh & _).
    assert (k ∉ d1.*1) as Hk.
    { intros Hin. apply (Hfresh k Hin). apply elem_of_cons. by left. }
    apply Forall_app in Hall as [_ Hall].
    apply Forall_cons in Hall as [(Hne & _ & _ & (name & Hname & Hn) & Hv & _) _].
    simpl in Hne, Hname, Hv.
    destruct vals as [|v vs]; [done|].
    assert (triples (od_pairs ((k, v :: vs) :: d2)) =
            (k, [equals], v)
              :: (triples (map (fun v => (k, v)) vs)
                  ++ triples (od_pairs d2))) as ->.
    { unfold triples, od_pairs. simpl. by rewrite map_app. }
    change (form_loop names ((k, [equals], v) :: ?ps) d1)
      with (bind (form_step names d1 (k, [equals], v)) (form_loop names ps)).
    unfold Filters.form_step.
    assert (od_contains k d1 = false) as -> by by apply od_contains_false.
    destruct k as [|b k]; [done|].
    change (Nat.ltb 0 (length (b :: k))) with true. cbv iota.
    rewrite Hname, bool_decide_eq_true_2 by done.
    rewrite od_setitem_new by done.
    change (bind (Ok ?x) ?f) with (f x).
    rewrite form_loop_values by done.
    change ([v] ++ vs) with (v :: vs).
    rewrite IH.
    + by rewrite <- app_assoc.
    + by rewrite <- app_assoc.
Qed.

Lemma render_pieces (d : list (bytes * list bytes)) :
  flat_map (fun '(k, vals) =>
              map (fun v => bytes_join [equals] [k; v]) vals) d =
  map (fun kv => kv.1 ++ equals :: kv.2) (od_pairs d).
Proof.
  induction d as [|[k vals] d IH]; [done|].
  unfold od_pairs in *. cbn [flat_map]. cbv beta iota.
  rewrite map_app, map_map, IH. reflexivity.
Qed.

(** Splitting a rendered body gives back the pairs it was made of. *)
Lemma form_params_render (names : list string)
    (d : list (bytes * list bytes)) :
  post_data_ok names d -> d <> [] ->
  form_params (form_render d) = triples (od_pairs d).
Proof.
  intros [_ Hall] Hne. unfold form_params, form_render.
  rewrite render_pieces, bytes_split_join.
  - unfold triples. rewrite map_map. apply map_ext_in.
    intros [k v] Hin. simpl. apply bytes_partition_at.
    apply list_elem_of_In in Hin. revert Hin. clear Hne.
    induction Hall as [|[k' vals'] d (_ & He & _) _ IH]; [by intros ?%elem_of_nil|].
    unfold od_pairs. simpl. fold (od_pairs d). rewrite elem_of_app.
    intros [Hin|Hin]; [|by apply IH].
    apply list_elem_of_In, in_map_iff in Hin as (v' & [= <- <-] & _). done.
  - destruct d as [|[k vals] d]; [done|].
    apply Forall_cons in Hall as [(_ & _ & _ & _ & Hv & _) _]. simpl in Hv.
    destruct vals; [done|]. unfold od_pairs. by simpl.
  - clear Hne. induction Hall as [|[k vals] d (_ & _ & Ha & _ & _ & Hvs) _ IH];
      [apply Forall_nil_2|].
    unfold od_pairs. simpl. fold (od_pairs d). rewrite map_app.
    apply Forall_app. split; [|done]. rewrite map_map. simpl in *.
    apply Forall_forall. intros piece Hin.
    apply list_elem_of_In, in_map_iff in Hin as (v & <- & Hv).
    apply list_elem_of_In in Hv. rewrite Forall_forall in Hvs.
    rewrite elem_of_app, elem_of_cons. intros [?|[?|?]]; [done|done|].
    by apply (Hvs v).
Qed.

(** The loop run on its own rendered result gives that result again. *)
Lemma form_loop_twice (names : list string) (b : bytes)
    (d : list (bytes * list bytes)) :
  form_loop names (form_params b) [] = Ok d ->
  form_loop names (form_params (form_render d)) [] = Ok d.
Proof.
  intros Hloop.
  assert (post_data_ok names d) as Hok.
  { eapply form_loop_ok; [|apply form_params_clean|done].
    split; [apply NoDup_nil_2|apply Forall_nil_2]. }
  destruct d as [|entry d]; [done|].
  rewrite (form_params_render names) by done.
  by apply (form_loop_rebuild names (entry :: d) []).
Qed.

(** *** A JSON body filtered twice *)

Lemma strip_keys_fold (names : list string) (keys : list string)
    (d : gmap string Json) (k : string) :
  foldl (fun d k => if decide (k ∈ names) then delete k d else d) d keys
  !! k =
  if decide (k ∈ keys /\ k ∈ names) then None else d !! k.
Proof.
  revert d. induction keys as [|k0 keys IH]; intros d; cbn [foldl].
  - rewrite decide_False; [done|]. by intros [?%elem_of_nil _].
  - rewrite IH. destruct (decide (k ∈ keys /\ k ∈ names)) as [[Hin Hn]|Hnot].
    + rewrite decide_True; [done|]. split; [|done]. by apply elem_of_cons; right.
    + destruct (decide (k0 ∈ names)) as [Hn0|Hn0].
      * destruct (decide (k = k0)) as [->|Hne].
        -- rewrite lookup_delete_eq. rewrite decide_True; [done|].
           split; [|done]. by apply elem_of_cons; left.
        -- rewrite lookup_delete_ne by done. rewrite decide_False; [done|].
           intros [[?|?]%elem_of_cons ?]; [done|]. by apply Hnot.
      * rewrite decide_False; [done|].
        intros [[->|?]%elem_of_cons ?]; [done|]. by apply Hnot.
Qed.

Lemma strip_keys_lookup (names : list string) (d : gmap string Json)
    (k : string) :
  strip_keys names d !! k = if decide (k ∈ names) then None else d !! k.
Proof.
  unfold strip_keys. rewrite strip_keys_fold.
  destruct (decide (k ∈ names)) as [Hn|Hn].
  - destruct (decide (k ∈ (map_to_list d).*1 /\ k ∈ names)) as [|Hnot];
      [done|].
    destruct (d !! k) as [x|] eqn:Hx; [|done].
    destruct Hnot. split; [|done].
    apply list_elem_of_fmap. exists (k, x). split; [done|].
    by apply elem_of_map_to_list.
  - rewrite decide_False; [done|]. by intros [_ ?].
Qed.

Lemma strip_keys_twice (names : list string) (d : gmap string Json) :
  strip_keys names (strip_keys names d) = strip_keys names d.
Proof.
  apply map_eq. intros k. rewrite !strip_keys_lookup.
  by destruct (decide (k ∈ names)).
Qed.

(** *** The query filtered twice *)

Lemma keep_query_twice (names : list string) (q : list (string * string)) :
  keep_query names (keep_query names q) = keep_query names q.
Proof.
  apply keep_query_all. intros k v Hin.
  by apply list_elem_of_filter in Hin as [Hk _].
Qed.

(** C7. Each of the three filters, applied to its own result with the
    same names, returns that result: for [remove_headers] always; for
    [remove_query_parameters] when the URI it rebuilt parses back to the
    query it was built from; for [remove_post_data_parameters] when the
    JSON document it wrote loads back to the object it was written
    from.  A filter that raises the first time raises the same way. *)
Theorem filters_idempotent (request : Request) (names : list string) :
  (let new_query := keep_query names (query_of (uri request)) in
   query_of (rebuilt_uri urlparse urlencode urlunparse request new_query)
   = new_query) ->
  (forall b json_data,
      body request = Bytes b -> json_loads b = Some json_data ->
      json_loads (json_dumps (strip_keys names json_data)) =
      Some (strip_keys names json_data)) ->
  bind (remove_headers request names) (fun r => remove_headers r names) =
    remove_headers request names
  /\ remove_query_parameters (remove_query_parameters request names) names =
     remove_query_parameters request names
  /\ bind (remove_post_data_parameters request names)
          (fun r => remove_post_data_parameters r names) =
     remove_post_data_parameters request names.
Proof.
  intros Hurl Hjson. split; [apply remove_headers_twice|split].
  - unfold Filters.remove_query_parameters at 2 3.
    destruct (decide (length (keep_query names (query_of (uri request)))
                      <> length (query_of (uri request)))) as [Hlen|Hlen].
    + unfold Filters.remove_query_parameters. simpl. simpl in Hurl.
      rewrite Hurl, keep_query_twice. by rewrite decide_False by (by intros ?).
    + unfold Filters.remove_query_parameters. by rewrite decide_False.
  - unfold Filters.remove_post_data_parameters at 1 3.
    destruct (String.eqb (method request) "POST") eqn:Hpost;
      [|simpl; unfold Filters.remove_post_data_parameters; by rewrite Hpost].
    destruct (body request) as [|b|b] eqn:Hbody.
    + done.
    + destruct (bool_decide (headers request !! "Content-Type" =
                             Some "application/json")) eqn:Hct.
      * destruct (json_loads b) as [json_data|] eqn:Hload; [|done]. simpl.
        unfold Filters.remove_post_data_parameters. simpl.
        rewrite Hpost, Hct, (Hjson b json_data) by done.
        by rewrite strip_keys_twice.
      * destruct (form_loop names (form_params b) []) as [d|e] eqn:Hloop;
          [|done].
        simpl. unfold Filters.remove_post_data_parameters. simpl.
        rewrite Hpost, Hct. by rewrite (form_loop_twice names b d Hloop).
    + simpl. unfold Filters.remove_post_data_parameters.
      by rewrite Hpost, Hbody.
Qed.

End WithLibraries.

(** [remove_query_parameters] on a URI without the named parameter,
    on the demo library. *)
Lemma remove_query_parameters_no_match_witness :
  FiltersDemo.remove_query_parameters FiltersDemo.form_post ["key"; "page"]
  = FiltersDemo.form_post.
Proof.
  apply (remove_query_parameters_no_match FiltersDemo.query_of).
  intros k v Hin. vm_compute in Hin.
  apply elem_of_cons in Hin as [[= -> ->]|Hin];
    [|apply elem_of_cons in Hin as [[= -> ->]|Hin];
      [|by apply elem_of_nil in Hin]];
    intros Hk; repeat (apply elem_of_cons in Hk as [Hk|Hk]; [discriminate|]);
    by apply elem_of_nil in Hk.
Defined.

(** The example of C10: the body [=x&a=1] with nothing to remove becomes
    [a=1]. *)
Lemma remove_post_data_parameters_drops_empty_keys_witness :
  FiltersDemo.remove_post_data_parameters FiltersDemo.form_post [] =
  Ok (set_body FiltersDemo.form_post (Bytes (FiltersDemo.raw "a=1"))).
Proof.
  refine (proj1 (remove_post_data_parameters_drops_empty_keys
                   FiltersDemo.json_loads FiltersDemo.json_dumps
                   FiltersDemo.utf8_decode FiltersDemo.form_post
                   (FiltersDemo.raw "=x&a=1") _ _ _ _)).
  - reflexivity.
  - reflexivity.
  - vm_compute. discriminate.
  - intros kv Hin Hne. vm_compute in Hin.
    apply elem_of_cons in Hin as [->|Hin]; [by destruct Hne|].
    apply elem_of_cons in Hin as [->|Hin]; [by eexists|].
    by apply elem_of_nil in Hin.
Defined.

(** The three filters applied twice to the JSON post of the demo, with
    a name for each of them to remove. *)
Lemma filters_idempotent_witness :
  let names := ["a"; "token"; "Authorization"] in
  bind (remove_headers FiltersDemo.json_post names)
       (fun r => remove_headers r names) =
    remove_headers FiltersDemo.json_post names
  /\ FiltersDemo.remove_query_parameters
       (FiltersDemo.remove_query_parameters FiltersDemo.json_post names)
       names =
     FiltersDemo.remove_query_parameters FiltersDemo.json_post names
  /\ bind (FiltersDemo.remove_post_data_parameters
             FiltersDemo.json_post names)
          (fun r => FiltersDemo.remove_post_data_parameters r names) =
     FiltersDemo.remove_post_data_parameters FiltersDemo.json_post names.
Proof.
  intros names.
  apply (filters_idempotent FiltersDemo.query_of FiltersDemo.urlparse
           FiltersDemo.urlencode FiltersDemo.urlunparse
           FiltersDemo.json_loads FiltersDemo.json_dumps
           FiltersDemo.utf8_decode FiltersDemo.json_post names).
  - vm_compute. reflexivity.
  - intros b json_data [= <-]. vm_compute. intros [= <-]. reflexivity.
Defined.

End FiltersSpec.

(** ** The cassette: loading, replaying, counting *)

Module CassetteRestSpec.

Import CassetteRest.

Section WithTypes.

Context {Request Response MatchOn : Type}.
Variable requests_match : option Request -> Request -> MatchOn -> bool.

Abbreviation cassette := (@Cassette.t Request Response MatchOn).
Abbreviation play_response := (Cassette.play_response requests_match).
Abbreviation responses_of := (Cassette.responses_of requests_match).
Abbreviation run := (Cassette.run requests_match).
Abbreviation step := (Cassette.step requests_match).

(** *** [_load] *)

Lemma kept_pairs_app (c : cassette) (l1 l2 : list (Request * Response)) :
  kept_pairs c (l1 ++ l2) = kept_pairs c l1 ++ kept_pairs c l2.
Proof. unfold kept_pairs. apply omap_app. Qed.

Lemma append_data (c : cassette) (request : Request) (response : Response) :
  Cassette.data (Cassette.append c request response) =
  Cassette.data c ++ kept_pairs c [(request, response)].
Proof.
  unfold Cassette.append, kept_pairs. simpl.
  destruct (Cassette._before_record_request c request); simpl; [done|].
  by rewrite app_nil_r.
Qed.

Lemma append_frame (c : cassette) (request : Request) (response : Response) :
  let c' := Cassette.append c request response in
  Cassette._before_record_request c' = Cassette._before_record_request c
  /\ Cassette._before_record_response c' = Cassette._before_record_response c
  /\ Cassette.play_counts c' = Cassette.play_counts c
  /\ Cassette.rewound c' = Cassette.rewound c
  /\ Cassette.record_mode c' = Cassette.record_mode c
  /\ Cassette._path c' = Cassette._path c
  /\ Cassette._match_on c' = Cassette._match_on c.
Proof.
  unfold Cassette.append.
  by destruct (Cassette._before_record_request c request).
Qed.

Lemma append_all (pairs : list (Request * Response)) (c : cassette) :
  let c' := fold_left (fun c '(request, response) =>
                         Cassette.append c request response) pairs c in
  Cassette.data c' = Cassette.data c ++ kept_pairs c pairs
  /\ Cassette._before_record_request c' = Cassette._before_record_request c
  /\ Cassette._before_record_response c' = Cassette._before_record_response c
  /\ Cassette.play_counts c' = Cassette.play_counts c
  /\ Cassette.rewound c' = Cassette.rewound c
  /\ Cassette.record_mode c' = Cassette.record_mode c
  /\ Cassette._path c' = Cassette._path c
  /\ Cassette._match_on c' = Cassette._match_on c.
Proof.
  revert c. induction pairs as [|[request response] pairs IH]; intros c.
  - simpl. by rewrite app_nil_r.
  - cbn [fold_left].
    destruct (IH (Cassette.append c request response))
      as (Hd & Hq & Hs & Hp & Hr & Hm & Hpath & Hmo).
    destruct (append_frame c request response)
      as (Hq' & Hs' & Hp' & Hr' & Hm' & Hpath' & Hmo').
    cbv zeta in *.
    repeat split; try congruence.
    rewrite Hd, append_data, <- app_assoc. f_equal.
    change ((request, response) :: pairs)
      with ([(request, response)] ++ pairs).
    rewrite kept_pairs_app. f_equal.
    unfold kept_pairs. by rewrite Hq', Hs'.
Qed.

(** X1. When the storage is there, [_load] adds to the exchanges, in
    order and after zipping the two stored lists, exactly the pairs whose
    request the filter keeps, each filtered; it marks the cassette as
    rewound and clean and leaves the play counts alone. *)
Theorem load_appends_kept_pairs
    (load_cassette : string -> Cassette.load_outcome) (c : cassette)
    (stored_requests : list Request) (stored_responses : list Response) :
  load_cassette (Cassette._path c) =
    Cassette.Loaded stored_requests stored_responses ->
  exists c',
    Cassette._load load_cassette c = Ok c'
    /\ Cassette.data c' =
         Cassette.data c
         ++ kept_pairs c (combine stored_requests stored_responses)
    /\ Cassette.rewound c' = true
    /\ Cassette.dirty c' = false
    /\ Cassette.play_counts c' = Cassette.play_counts c
    /\ Cassette.record_mode c' = Cassette.record_mode c
    /\ Cassette._path c' = Cassette._path c.
Proof.
  intros Hstored. unfold Cassette._load. rewrite Hstored.
  eexists. split; [done|]. simpl.
  destruct (append_all (combine stored_requests stored_responses) c)
    as (Hd & _ & _ & Hp & _ & Hm & Hpath & _).
  cbv zeta in *. by repeat split.
Qed.

(** *** The exchanges only grow *)

Lemma load_data_prefix load_cassette (c c' : cassette) :
  Cassette._load load_cassette c = Ok c' ->
  Cassette.data c `prefix_of` Cassette.data c'.
Proof.
  unfold Cassette._load.
  destruct (load_cassette (Cassette._path c)) as [rq rs| |what];
    [|by intros [= <-]|done].
  intros [= <-]. simpl.
  destruct (append_all (combine rq rs) c) as (Hd & _). cbv zeta in Hd.
  rewrite Hd. by eexists.
Qed.

Lemma step_data_prefix (c : cassette) (o : Cassette.op) :
  Cassette.data c `prefix_of` Cassette.data (step c o).
Proof.
  destruct o as [request response|request|request|request|request
                 |force save_ok|load_cassette]; simpl; try done.
  - rewrite append_data. by eexists.
  - unfold Cassette.play_response.
    by destruct (Cassette.first_unplayed _ _) as [[index response]|].
  - unfold Cassette._save.
    destruct (force || Cassette.dirty c); [destruct save_ok|]; done.
  - destruct (Cassette._load load_cassette c) as [c'|e] eqn:Hl; [|done].
    by eapply load_data_prefix.
Qed.

(** X2. Whatever is called on a cassette, the exchanges it held stay
    where they were: the list of exchanges after the calls starts with
    the list before them, so an index keeps its exchange. *)
Theorem data_only_grows (c : cassette) (ops : list Cassette.op) :
  Cassette.data c `prefix_of` Cassette.data (run c ops)
  /\ forall i pair,
       Cassette.data c !! i = Some pair ->
       Cassette.data (run c ops) !! i = Some pair.
Proof.
  assert (Cassette.data c `prefix_of` Cassette.data (run c ops)) as Hpre.
  { revert c. induction ops as [|o ops IH]; intros c; [done|]. simpl.
    etransitivity; [apply (step_data_prefix c o)|apply IH]. }
  split; [done|]. intros i pair Hi. by eapply prefix_lookup_Some.
Qed.

(** *** Replaying *)

(** What a successful [play_response] did. *)
Lemma play_response_ok_inv (c c' : cassette) (request : Request)
    (response : Response) :
  play_response c request = (c', Ok response) ->
  exists i stored,
    Cassette.data c !! i = Some (stored, response)
    /\ requests_match (Cassette._before_record_request c request) stored
         (Cassette._match_on c) = true
    /\ counter_get (Cassette.play_counts c) i = 0
    /\ (forall j, j < i ->
          ~ Cassette.unplayed_match requests_match c
              (Cassette._before_record_request c request) j)
    /\ c' = Cassette.set_play_counts c (<[i := 1]> (Cassette.play_counts c)).
Proof.
  unfold Cassette.play_response, Cassette._responses, enumerate.
  pose proof (CassetteSpec.first_unplayed_scan requests_match
                (Cassette.play_counts c)
                (Cassette._before_record_request c request)
                (Cassette._match_on c) (Cassette.data c) 0) as Hscan.
  destruct (Cassette.first_unplayed _ _) as [[i r]|]; [|done].
  intros [= <- <-].
  destruct Hscan as (k & stored & -> & Hk & Hm & Hc & Hbefore).
  simpl in *. exists k, stored. repeat split; try done.
  - intros j Hlt (st & r' & Hj & Hmj & Hcj). by eapply (Hbefore j).
  - unfold counter_incr. by rewrite Hc.
Qed.

(** What a failed [play_response] did. *)
Lemma play_response_raise_inv (c c' : cassette) (request : Request)
    (e : Cassette.exn) :
  play_response c request = (c', Raise e) ->
  c' = c
  /\ e = Cassette.UnhandledHTTPRequestError (Cassette._path c) request
  /\ forall i, ~ Cassette.unplayed_match requests_match c
                   (Cassette._before_record_request c request) i.
Proof.
  unfold Cassette.play_response, Cassette._responses, enumerate.
  pose proof (CassetteSpec.first_unplayed_scan requests_match
                (Cassette.play_counts c)
                (Cassette._before_record_request c request)
                (Cassette._match_on c) (Cassette.data c) 0) as Hscan.
  destruct (Cassette.first_unplayed _ _) as [[i r]|]; [done|].
  intros [= <- <-]. repeat split.
  intros i (st & r & Hi & Hm & Hc). by eapply (Hscan i).
Qed.

(** X3. Membership predicts replay: [request in cassette] is true
    exactly when [play_response] on that request returns a response. *)
Theorem contains_iff_play_response_returns (c : cassette)
    (request : Request) :
  Cassette.__contains__ requests_match c request = true <->
  exists c' response, play_response c request = (c', Ok response).
Proof.
  unfold Cassette.__contains__, Cassette.play_response.
  destruct (Cassette.first_unplayed _ _) as [[i r]|].
  - split; [intros _|done]. by eexists _, _.
  - split; [done|]. by intros (c' & r & ?).
Qed.

(** The responses yielded by [_responses], without their indices. *)
Lemma responses_yielded (wanted : option Request) (match_on : MatchOn)
    (l : list (Request * Response)) (start : nat) :
  map snd
    (omap (fun '(index, (stored_request, response)) =>
             if requests_match wanted stored_request match_on
             then Some (index, response) else None)
          (enumerate_from start l)) =
  omap (fun pair : Request * Response =>
          if requests_match wanted pair.1 match_on
          then Some pair.2 else None) l.
Proof.
  revert start. induction l as [|[stored response] l IH]; intros start;
    [done|].
  simpl. destruct (requests_match wanted stored match_on); simpl;
    by rewrite IH.
Qed.

(** X4. [responses_of] returns the responses of all the exchanges whose
    request matches the filtered request, in order and whatever their
    play counts; it raises [UnhandledHTTPRequestError] exactly when
    there is none. *)
Theorem responses_of_all_matching (c : cassette) (request : Request) :
  let matching :=
    matching_responses requests_match c
      (Cassette._before_record_request c request) in
  (matching <> [] /\ responses_of c request = Ok matching)
  \/ (matching = []
      /\ responses_of c request =
         Raise (Cassette.UnhandledHTTPRequestError
                  (Cassette._path c) request)).
Proof.
  intros matching. unfold Cassette.responses_of, Cassette._responses,
    enumerate.
  rewrite responses_yielded. fold (matching_responses requests_match c
    (Cassette._before_record_request c request)). fold matching.
  destruct matching; [by right|by left].
Qed.

(** X5. A response that [play_response] returns is one of those that
    [responses_of] lists for the same request, and playing it does not
    change what [responses_of] lists afterwards. *)
Theorem played_response_is_listed (c c' : cassette) (request : Request)
    (response : Response) :
  play_response c request = (c', Ok response) ->
  (exists listed,
      responses_of c request = Ok listed /\ response ∈ listed)
  /\ forall other, responses_of c' other = responses_of c other.
Proof.
  intros Hplay.
  destruct (play_response_ok_inv _ _ _ _ Hplay)
    as (i & stored & Hi & Hm & _ & _ & ->).
  split; [|done].
  unfold Cassette.responses_of, Cassette._responses, enumerate.
  rewrite responses_yielded.
  assert (response ∈
            omap (fun pair : Request * Response =>
                    if requests_match
                         (Cassette._before_record_request c request)
                         pair.1 (Cassette._match_on c)
                    then Some pair.2 else None)
                 (Cassette.data c)) as Hin.
  { apply list_elem_of_omap. exists (stored, response). split.
    - by eapply list_elem_of_lookup_2.
    - simpl. by rewrite Hm. }
  destruct (omap _ _) as [|r0 rs]; [by apply elem_of_nil in Hin|].
  by eexists.
Qed.

(** X6. Playing the same request again never returns the same exchange:
    the second response comes from a later index, and both indices end
    with play count one. *)
Theorem play_response_again_moves_on (c c1 c2 : cassette)
    (request : Request) (first second : Response) :
  play_response c request = (c1, Ok first) ->
  play_response c1 request = (c2, Ok second) ->
  exists i j stored_i stored_j,
    i < j
    /\ Cassette.data c !! i = Some (stored_i, first)
    /\ Cassette.data c !! j = Some (stored_j, second)
    /\ Cassette.play_counts c2 =
         <[j := 1]> (<[i := 1]> (Cassette.play_counts c)).
Proof.
  intros H1 H2.
  destruct (play_response_ok_inv _ _ _ _ H1)
    as (i & si & Hi & Hmi & Hci & Hbi & ->).
  destruct (play_response_ok_inv _ _ _ _ H2)
    as (j & sj & Hj & Hmj & Hcj & _ & ->).
  simpl in *. exists i, j, si, sj. repeat split; try done.
  destruct (decide (j = i)) as [->|Hne].
  - unfold counter_get in Hcj. by rewrite lookup_insert_eq in Hcj.
  - unfold counter_get in Hcj. rewrite lookup_insert_ne in Hcj by done.
    destruct (decide (j < i)) as [Hlt|]; [|lia].
    destruct (Hbi j Hlt). by exists sj, second.
Qed.

(** X7. When a single exchange matches the request, the request can be
    played once: the second [play_response] raises
    [UnhandledHTTPRequestError] and changes nothing. *)
Theorem single_match_plays_once (c c1 : cassette) (request : Request)
    (first : Response) :
  (forall i j si ri sj rj,
      Cassette.data c !! i = Some (si, ri) ->
      Cassette.data c !! j = Some (sj, rj) ->
      requests_match (Cassette._before_record_request c request) si
        (Cassette._match_on c) = true ->
      requests_match (Cassette._before_record_request c request) sj
        (Cassette._match_on c) = true ->
      i = j) ->
  play_response c request = (c1, Ok first) ->
  play_response c1 request =
    (c1, Raise (Cassette.UnhandledHTTPRequestError
                  (Cassette._path c) request)).
Proof.
  intros Huniq H1.
  destruct (play_response c1 request) as [c2 [second|e]] eqn:H2.
  - exfalso.
    destruct (play_response_ok_inv _ _ _ _ H1)
      as (i & si & Hi & Hmi & _ & _ & ->).
    destruct (play_response_ok_inv _ _ _ _ H2)
      as (j & sj & Hj & Hmj & Hcj & _ & _).
    simpl in *.
    assert (i = j) as <- by (by eapply Huniq).
    unfold counter_get in Hcj. by rewrite lookup_insert_eq in Hcj.
  - destruct (play_response_raise_inv _ _ _ _ H2) as (-> & -> & _).
    destruct (play_response_ok_inv _ _ _ _ H1)
      as (i & si & _ & _ & _ & _ & Hc1).
    by rewrite Hc1.
Qed.

(** *** Counting the replays *)

Lemma counts_ok_fresh (path mode : string) (match_on : MatchOn)
    (before_record_request : option (Request -> option Request))
    (before_record_response : option (Response -> Response)) :
  counts_ok (Cassette.__init__ path mode match_on
               before_record_request before_record_response).
Proof. intros i n Hi. simpl in Hi. by rewrite lookup_empty in Hi. Qed.

Lemma counts_ok_grow (c c' : cassette) :
  Cassette.play_counts c' = Cassette.play_counts c ->
  Cassette.data c `prefix_of` Cassette.data c' ->
  counts_ok c -> counts_ok c'.
Proof.
  intros Hp Hd Hok i n Hi. rewrite Hp in Hi.
  destruct (Hok i n Hi) as [-> Hlt]. split; [done|].
  apply prefix_length in Hd. lia.
Qed.

Lemma step_counts_ok (c : cassette) (o : Cassette.op) :
  counts_ok c -> counts_ok (step c o).
Proof.
  intros Hok.
  destruct o as [request response|request|request|request|request
                 |force save_ok|load_cassette]; simpl; try done.
  - eapply counts_ok_grow; [|apply (step_data_prefix c
                                      (Cassette.OpAppend request response))
                            |done].
    apply CassetteSpec.append_play_counts.
  - destruct (play_response c request) as [c' [response|e]] eqn:Hplay; simpl.
    + destruct (play_response_ok_inv _ _ _ _ Hplay)
        as (i & stored & Hi & _ & _ & _ & ->).
      intros k n Hk. simpl in *.
      destruct (decide (k = i)) as [->|Hne].
      * rewrite lookup_insert_eq in Hk. injection Hk as <-.
        split; [done|]. by eapply lookup_lt_Some.
      * rewrite lookup_insert_ne in Hk by done. by apply Hok.
    + by destruct (play_response_raise_inv _ _ _ _ Hplay) as (-> & _).
  - unfold Cassette._save.
    destruct (force || Cassette.dirty c); [destruct save_ok|]; done.
  - destruct (Cassette._load load_cassette c) as [c'|e] eqn:Hl; [|done].
    eapply counts_ok_grow; [|by eapply load_data_prefix|done].
    by eapply CassetteSpec.load_play_counts.
Qed.

Lemma run_counts_ok (ops : list Cassette.op) (c : cassette) :
  counts_ok c -> counts_ok (run c ops).
Proof.
  revert c. induction ops as [|o ops IH]; intros c Hok; [done|].
  simpl. apply IH. by apply step_counts_ok.
Qed.

Lemma play_count_size (c : cassette) :
  counts_ok c -> play_count c = size (Cassette.play_counts c).
Proof.
  intros Hok. unfold play_count.
  rewrite (sum_list_fmap_same 1), length_map_to_list; [lia|].
  apply Forall_forall. intros [i n] Hin.
  apply elem_of_map_to_list in Hin. by destruct (Hok i n Hin).
Qed.

Lemma played_indices_bound (c : cassette) :
  counts_ok c ->
  dom (Cassette.play_counts c) ⊆@{gset nat}
    set_seq 0 (length (Cassette.data c)).
Proof.
  intros Hok i Hi. apply elem_of_dom in Hi as [n Hn].
  destruct (Hok i n Hn) as [_ Hlt]. apply elem_of_set_seq. lia.
Qed.

(** X8. On a cassette used only through its methods since it was
    constructed, [play_count] never exceeds the number of exchanges, and
    [all_played] is true exactly when every exchange has play count
    one. *)
Theorem all_played_when_each_played_once (path mode : string)
    (match_on : MatchOn)
    (before_record_request : option (Request -> option Request))
    (before_record_response : option (Response -> Response))
    (ops : list Cassette.op) :
  let c := run (Cassette.__init__ path mode match_on
                  before_record_request before_record_response) ops in
  play_count c <= __len__ c
  /\ (all_played c = true <->
      forall i, i < __len__ c ->
                counter_get (Cassette.play_counts c) i = 1).
Proof.
  intros c.
  assert (counts_ok c) as Hok
    by (apply run_counts_ok, counts_ok_fresh).
  pose proof (played_indices_bound c Hok) as Hdom.
  pose proof (play_count_size c Hok) as Hsize.
  unfold all_played, __len__. rewrite Nat.eqb_eq, Hsize.
  rewrite <- (size_dom (D:=gset nat)).
  split.
  - apply subseteq_size in Hdom. by rewrite size_set_seq in Hdom.
  - split.
    + intros Heq i Hi.
      assert (dom (Cassette.play_counts c) =
              set_seq 0 (length (Cassette.data c))) as Hall.
      { apply set_subseteq_size_eq; [done|].
        rewrite size_set_seq. lia. }
      assert (i ∈ dom (Cassette.play_counts c)) as Hin.
      { rewrite Hall. apply elem_of_set_seq. lia. }
      apply elem_of_dom in Hin as [n Hn].
      destruct (Hok i n Hn) as [-> _].
      unfold counter_get. by rewrite Hn.
    + intros Hall.
      assert (set_seq 0 (length (Cassette.data c))
              ⊆@{gset nat} dom (Cassette.play_counts c)) as Hsub.
      { intros i Hi. apply elem_of_set_seq in Hi.
        assert (counter_get (Cassette.play_counts c) i = 1) as Hc
          by (apply Hall; lia).
        apply elem_of_dom. unfold counter_get in Hc.
        destruct (Cassette.play_counts c !! i); [by eexists|done]. }
      apply subseteq_size in Hsub, Hdom.
      rewrite size_set_seq in Hsub, Hdom. lia.
Qed.

(** *** Record modes and storage *)

(** X9. Right after [Cassette.load], the cassette is write protected
    exactly when the record mode is "none", or the record mode is "once"
    and the storage was there. *)
Theorem write_protected_after_load
    (load_cassette : string -> Cassette.load_outcome)
    (path mode : string) (match_on : MatchOn)
    (before_record_request : option (Request -> option Request))
    (before_record_response : option (Response -> Response))
    (c : cassette) :
  Cassette.load load_cassette path mode match_on
                before_record_request before_record_response = Ok c ->
  Cassette.write_protected c = true <->
  mode = "none"
  \/ (mode = "once"
      /\ exists stored_requests stored_responses,
           load_cassette path =
           Cassette.Loaded stored_requests stored_responses).
Proof.
  unfold Cassette.load, Cassette._load. simpl.
  destruct (load_cassette path) as [rq rs| |what] eqn:Hstored;
    [|intros [= <-]|done].
  - intros [= <-]. unfold Cassette.write_protected. simpl.
    destruct (append_all (combine rq rs)
                (Cassette.__init__ path mode match_on
                   before_record_request before_record_response))
      as (_ & _ & _ & _ & _ & Hm & _).
    cbv zeta in Hm. rewrite Hm. simpl.
    rewrite orb_true_iff, !String.eqb_eq.
    split; [intros [?|?]; [right|left]|intros [?|[? _]]; [right|left]];
      try done.
    split; [done|]. by eexists _, _.
  - unfold Cassette.write_protected. simpl.
    rewrite String.eqb_eq. split; [by left|].
    intros [?|[_ (rq & rs & ?)]]; done.
Qed.

Lemma step_replay_only (c : cassette) (o : Cassette.op) :
  replay_only o = true ->
  Cassette.dirty (step c o) = Cassette.dirty c
  /\ Cassette.data (step c o) = Cassette.data c.
Proof.
  destruct o as [request response|request|request|request|request
                 |force save_ok|load_cassette]; try done; intros _; simpl.
  unfold Cassette.play_response.
  by destruct (Cassette.first_unplayed _ _) as [[index response]|].
Qed.

(** X10. Replaying does not dirty a cassette: after any calls among
    [play_response], [responses_of], [can_play_response_for] and the
    membership test on a clean cassette, the exchanges are the same, the
    cassette is still clean, and [_save] without [force] calls
    [save_cassette] not at all and returns. *)
Theorem replay_keeps_clean (c : cassette) (ops : list Cassette.op)
    (save_ok : bool) :
  Cassette.dirty c = false ->
  forallb replay_only ops = true ->
  let c' := run c ops in
  Cassette.data c' = Cassette.data c
  /\ Cassette.dirty c' = false
  /\ save_call c' false = None
  /\ Cassette._save save_ok c' false = Ok c'.
Proof.
  intros Hclean Hops c'.
  assert (Cassette.data c' = Cassette.data c
          /\ Cassette.dirty c' = false) as [Hd Hdirty].
  { unfold c'. clear c'. revert c Hclean Hops.
    induction ops as [|o ops IH]; intros c Hclean Hops; [done|].
    simpl in Hops. apply andb_true_iff in Hops as [Ho Hops].
    destruct (step_replay_only c o Ho) as [Hdirty Hdata].
    simpl. destruct (IH (step c o)) as [Hd' Hc']; [congruence|done|].
    split; congruence. }
  repeat split; try done.
  - unfold save_call. by rewrite Hdirty.
  - unfold Cassette._save. by rewrite Hdirty.
Qed.

Lemma step_loads_nothing (c : cassette) (o : Cassette.op) :
  loads_nothing (Cassette._path c) o = true ->
  Cassette.rewound (step c o) = Cassette.rewound c
  /\ Cassette._path (step c o) = Cassette._path c.
Proof.
  destruct o as [request response|request|request|request|request
                 |force save_ok|load_cassette]; simpl; try done.
  - intros _. by destruct (append_frame c request response)
      as (_ & _ & _ & ? & _ & ? & _).
  - intros _. unfold Cassette.play_response.
    by destruct (Cassette.first_unplayed _ _) as [[index response]|].
  - intros _. unfold Cassette._save.
    destruct (force || Cassette.dirty c); [destruct save_ok|]; done.
  - unfold Cassette._load.
    by destruct (load_cassette (Cassette._path c)).
Qed.

(** X11. A cassette replays nothing until a load has found its storage:
    from construction on, as long as no [_load] gets the stored lists,
    the cassette is not rewound and [can_play_response_for] is false for
    every request, whatever has been appended. *)
Theorem no_replay_before_storage_is_found (path mode : string)
    (match_on : MatchOn)
    (before_record_request : option (Request -> option Request))
    (before_record_response : option (Response -> Response))
    (ops : list Cassette.op) (request : Request) :
  forallb (loads_nothing path) ops = true ->
  let c := run (Cassette.__init__ path mode match_on
                  before_record_request before_record_response) ops in
  Cassette.rewound c = false
  /\ Cassette.can_play_response_for requests_match c request = false.
Proof.
  intros Hops c.
  assert (Cassette.rewound c = false) as Hrew.
  { unfold c. clear c.
    generalize (eq_refl : Cassette.rewound
                  (Cassette.__init__ path mode match_on
                     before_record_request before_record_response) = false).
    generalize (eq_refl : Cassette._path
                  (Cassette.__init__ path mode match_on
                     before_record_request before_record_response) = path).
    generalize (Cassette.__init__ path mode match_on
                  before_record_request before_record_response).
    induction ops as [|o ops IH]; intros c Hpath Hrew; [done|].
    simpl in Hops. apply andb_true_iff in Hops as [Ho Hops].
    rewrite <- Hpath in Ho.
    destruct (step_loads_nothing c o Ho) as [Hr Hp].
    simpl. apply IH; [done|congruence|congruence]. }
  split; [done|]. unfold Cassette.can_play_response_for.
  destruct (Cassette._before_record_request c request); [|done].
  by rewrite Hrew, andb_false_r.
Qed.

(** *** Saving and loading *)

Lemma kept_pairs_default (path mode : string) (match_on : MatchOn)
    (pairs : list (Request * Response)) :
  kept_pairs (Cassette.__init__ path mode match_on None None) pairs = pairs.
Proof.
  unfold kept_pairs. simpl. induction pairs as [|[q r] pairs IH]; [done|].
  simpl in *. by f_equal.
Qed.

Lemma combine_requests_responses (c : cassette) :
  combine (requests c) (responses c) = Cassette.data c.
Proof.
  unfold requests, responses.
  induction (Cassette.data c) as [|[q r] d IH]; [done|].
  simpl. by rewrite IH.
Qed.

(** X12. What [_save] hands to [save_cassette] restores the exchanges:
    a forced save passes the path with the lists of requests and of
    responses, and a cassette constructed without filters that loads
    those two lists holds the same exchanges, is rewound and clean, and
    has every play count at zero. *)
Theorem saved_lists_load_back (c : cassette) (path mode : string)
    (match_on : MatchOn) :
  save_call c true = Some (Cassette._path c, (requests c, responses c))
  /\ exists c',
       Cassette.load (storage_of c) path mode match_on None None = Ok c'
       /\ Cassette.data c' = Cassette.data c
       /\ Cassette.rewound c' = true
       /\ Cassette.dirty c' = false
       /\ forall i, counter_get (Cassette.play_counts c') i = 0.
Proof.
  split; [done|].
  unfold Cassette.load, Cassette._load, storage_of. simpl.
  eexists. split; [done|]. simpl.
  destruct (append_all (combine (requests c) (responses c))
              (Cassette.__init__ path mode match_on None None))
    as (Hd & _ & _ & Hp & _).
  cbv zeta in Hd, Hp. repeat split.
  - rewrite Hd, kept_pairs_default, combine_requests_responses. done.
  - intros i. rewrite Hp. simpl. apply counter_get_empty.
Qed.

End WithTypes.

(** [_load] on the demo storage. *)
Lemma load_appends_kept_pairs_witness :
  exists c',
    Cassette._load Demo.one_exchange
      (Cassette.__init__ "rides.yaml" "once" tt (Some Demo.tag_uri) None)
    = Ok c'
    /\ Cassette.data c' = [("http://host/ride?id=1&seen=1", "200 OK")]
    /\ Cassette.rewound c' = true
    /\ Cassette.dirty c' = false
    /\ Cassette.play_counts c' = ∅
    /\ Cassette.record_mode c' = "once"
    /\ Cassette._path c' = "rides.yaml".
Proof.
  apply (load_appends_kept_pairs Demo.one_exchange
           (Cassette.__init__ "rides.yaml" "once" tt (Some Demo.tag_uri) None)
           ["http://host/ride?id=1"] ["200 OK"]).
  reflexivity.
Defined.

(** A played response is listed, on the demo cassette. *)
Lemma played_response_is_listed_witness :
  (exists listed,
      Cassette.responses_of Demo.uri_match Demo.tagged
        "http://host/ride?id=1" = Ok listed
      /\ "200 OK" ∈ listed)
  /\ forall other,
       Cassette.responses_of Demo.uri_match DemoRest.tagged_played other =
       Cassette.responses_of Demo.uri_match Demo.tagged other.
Proof.
  apply (played_response_is_listed Demo.uri_match Demo.tagged
           DemoRest.tagged_played "http://host/ride?id=1" "200 OK").
  reflexivity.
Defined.

(** Two replays of one request on the cassette with two exchanges. *)
Lemma play_response_again_moves_on_witness :
  exists i j stored_i stored_j,
    i < j
    /\ Cassette.data DemoRest.twice !! i = Some (stored_i, "200 first")
    /\ Cassette.data DemoRest.twice !! j = Some (stored_j, "200 second")
    /\ Cassette.play_counts DemoRest.twice_played_twice =
         <[j := 1]> (<[i := 1]> (Cassette.play_counts DemoRest.twice)).
Proof.
  apply (play_response_again_moves_on Demo.uri_match DemoRest.twice
           DemoRest.twice_played_once DemoRest.twice_played_twice
           "http://host/eta" "200 first" "200 second");
    reflexivity.
Defined.

(** The single exchange of the demo cassette plays once. *)
Lemma single_match_plays_once_witness :
  Cassette.play_response Demo.uri_match DemoRest.tagged_played
    "http://host/ride?id=1" =
  (DemoRest.tagged_played,
   Raise (Cassette.UnhandledHTTPRequestError "rides.yaml"
            "http://host/ride?id=1")).
Proof.
  apply (single_match_plays_once Demo.uri_match Demo.tagged
           DemoRest.tagged_played "http://host/ride?id=1" "200 OK").
  - intros [|i] [|j] si ri sj rj Hi Hj _ _; try done.
  - reflexivity.
Defined.

(** Mode "once" with storage: write protected after the load. *)
Lemma write_protected_after_load_witness :
  Cassette.write_protected Demo.tagged = true <->
  "once" = "none"
  \/ ("once" = "once"
      /\ exists stored_requests stored_responses,
           Demo.one_exchange "rides.yaml" =
           Cassette.Loaded stored_requests stored_responses).
Proof.
  apply (write_protected_after_load Demo.one_exchange "rides.yaml" "once"
           tt (Some Demo.tag_uri) None Demo.tagged).
  reflexivity.
Defined.

(** Two replays on the loaded demo cassette leave it clean. *)
Lemma replay_keeps_clean_witness :
  let ops := [Cassette.OpPlayResponse "http://host/eta";
              Cassette.OpContains "http://host/eta";
              Cassette.OpPlayResponse "http://host/eta"] in
  let c' := Cassette.run Demo.uri_match DemoRest.twice ops in
  Cassette.data c' = Cassette.data DemoRest.twice
  /\ Cassette.dirty c' = false
  /\ CassetteRest.save_call c' false = None
  /\ Cassette._save true c' false = Ok c'.
Proof.
  intros ops.
  apply (replay_keeps_clean Demo.uri_match DemoRest.twice ops true);
    reflexivity.
Defined.

(** Appending to a cassette whose storage is absent enables no replay. *)
Lemma no_replay_before_storage_is_found_witness :
  let ops := [Cassette.OpLoad Demo.no_storage;
              Cassette.OpAppend "http://host/eta" "200 OK"] in
  let c := Cassette.run Demo.uri_match
             (Cassette.__init__ "eta.yaml" "new_episodes" tt None None)
             ops in
  Cassette.rewound c = false
  /\ Cassette.can_play_response_for Demo.uri_match c "http://host/eta"
     = false.
Proof.
  intros ops.
  apply (no_replay_before_storage_is_found Demo.uri_match "eta.yaml"
           "new_episodes" tt None None ops "http://host/eta").
  reflexivity.
Defined.

End CassetteRestSpec.
